(** * Medicine question-answering assistant: the retrieval pipeline

    A shallow embedding of [llm_module.py] (class [LLMModule]), of the
    text extraction of [ocr_module.py] (class [OCRModule]), of the file
    handling and transcription of [voice_module.py] and of
    [MedicineAssistant.handle_medicine_query] from [main.py], with the
    properties the specification states about them and further
    properties read off the code.

    Python values are modelled as follows.
    - A [str] is the list of its Unicode code points ([pystr]); literals
      are written as UTF-8 text and decoded by [u].
    - A [dict] read from JSON is a [gmap] from keys to values.
    - A raised exception is the [Raise] alternative of [result]; the
      exceptions modelled are instances of Python's [Exception], the
      class every handler of the source names.
    - The file system, the persisted index, the console and the hosted
      language model are outside the program: the file system is part
      of an explicit state, the services, the storage and the console
      are parameters of a section. *)

From stdpp Require Import gmap strings list fin_maps.
From Stdlib Require Import NArith Ascii QArith.

Local Open Scope N_scope.

(** ** Python strings *)

Module Py.

(** A Python [str]: a sequence of code points. *)
Definition pystr : Type := list N.

Fixpoint string_bytes (s : string) : list N :=
  match s with
  | EmptyString => []
  | String a r => N_of_ascii a :: string_bytes r
  end.

(** UTF-8 decoding, used only to write the literals of the source. *)
Fixpoint utf8_decode (bs : list N) : pystr :=
  match bs with
  | [] => []
  | b0 :: r0 =>
      if b0 <? 128 then b0 :: utf8_decode r0
      else match r0 with
      | [] => []
      | b1 :: r1 =>
          if b0 <? 224 then
            N.lor (N.shiftl (N.land b0 31) 6) (N.land b1 63) :: utf8_decode r1
          else match r1 with
          | [] => []
          | b2 :: r2 =>
              if b0 <? 240 then
                N.lor (N.shiftl (N.land b0 15) 12)
                  (N.lor (N.shiftl (N.land b1 63) 6) (N.land b2 63))
                :: utf8_decode r2
              else match r2 with
              | [] => []
              | b3 :: r3 =>
                  N.lor (N.shiftl (N.land b0 7) 18)
                    (N.lor (N.shiftl (N.land b1 63) 12)
                       (N.lor (N.shiftl (N.land b2 63) 6) (N.land b3 63)))
                  :: utf8_decode r3
              end
          end
      end
  end.

Definition u (s : string) : pystr := utf8_decode (string_bytes s).
Arguments u : simpl never.

(** The line feed, written ["\n"] in the source. *)
Definition nl : pystr := [10].

(** [c.isspace()] for one code point: the characters [str.strip()]
    removes when called without argument. *)
Definition isspace (c : N) : bool :=
  ((9 <=? c) && (c <=? 13)) || ((28 <=? c) && (c <=? 32))
  || (c =? 133) || (c =? 160) || (c =? 5760)
  || ((8192 <=? c) && (c <=? 8202))
  || (c =? 8232) || (c =? 8233) || (c =? 8239) || (c =? 8287)
  || (c =? 12288).

Fixpoint lstrip (s : pystr) : pystr :=
  match s with
  | [] => []
  | c :: r => if isspace c then lstrip r else s
  end.

Definition rstrip (s : pystr) : pystr := rev (lstrip (rev s)).

(** [s.strip()] *)
Definition strip (s : pystr) : pystr := rstrip (lstrip s).

(** Truth value of a [str]: non-empty. *)
Definition nonempty (s : pystr) : bool :=
  match s with [] => false | _ :: _ => true end.

(** [p] is a prefix of [s]. *)
Fixpoint startswith (p s : pystr) : bool :=
  match p, s with
  | [], _ => true
  | _ :: _, [] => false
  | a :: p', b :: s' => (a =? b) && startswith p' s'
  end.

(** [needle in hay] *)
Fixpoint contains (needle hay : pystr) : bool :=
  startswith needle hay ||
  match hay with
  | [] => false
  | _ :: t => contains needle t
  end.

(** [sep.join(parts)] *)
Fixpoint join (sep : pystr) (parts : list pystr) : pystr :=
  match parts with
  | [] => []
  | [p] => p
  | p :: rest => p ++ sep ++ join sep rest
  end.

(** Exceptions. Every value of this type is an instance of Python's
    [Exception]: what a failing file operation, JSON parser, slice or
    hosted service raises. Interrupts of the interpreter, which are not
    instances of [Exception], are outside the model. *)
Inductive exn : Type :=
| TypeError
| FileError                   (* open() or json.load() failed *)
| StorageError                (* the persisted index could not be loaded *)
| ServiceError (msg : pystr)  (* a hosted service failed *)
| UnicodeEncodeError.         (* the console cannot encode a printed text *)

Inductive result (A : Type) : Type :=
| Return (a : A)
| Raise (e : exn).
Arguments Return {A} a.
Arguments Raise {A} e.

Definition bind {A B} (r : result A) (k : A → result B) : result B :=
  match r with
  | Return a => k a
  | Raise e => Raise e
  end.

(** [try: body  except Exception as e: handler e] *)
Definition try_except {A} (body : result A) (handler : exn → result A) : result A :=
  match body with
  | Return a => Return a
  | Raise e => handler e
  end.

(** A string that is empty or made of white space only. *)
Definition blank (s : pystr) : Prop := Forall (λ c, isspace c = true) s.

(** [k] occurs in [q] as a contiguous run of characters. *)
Definition Substring (k q : pystr) : Prop := ∃ pre post, q = pre ++ k ++ post.

End Py.
Import Py.

(** ** [ocr_module.py] *)

Module OCR.

(** [OCRModule.format_for_llm(ocr_text)]; [None] is Python's [None]. *)
Definition format_for_llm (ocr_text : option pystr) : option pystr :=
  match ocr_text with
  | None => None
  | Some ocr_text =>
      if negb (nonempty ocr_text) then None
      else
        let cleaned_text := strip ocr_text in
        if negb (nonempty cleaned_text) then None
        else
          Some (u "[약품 상자에서 추출된 정보]" ++ nl
                ++ cleaned_text ++ nl
                ++ nl
                ++ u "위 정보는 사용자가 제시한 약품 상자에서 OCR로 추출한 내용입니다." ++ nl
                ++ u "이 정보를 참고하여 질문에 답변해주세요.")
  end.

End OCR.

(** ** [llm_module.py] *)

Module LLM.

(** A field value of a medicine record. The data model makes every
    field an optional string: the records modelled hold [null] or a
    string under a key. A file with a number, a list or an object under
    a key is outside this model. *)
Inductive jvalue : Type :=
| JNull
| JStr (s : pystr).

(** A medicine record: a JSON object. *)
Abbreviation medicine := (gmap pystr jvalue).

(** Truth value of a field value. *)
Definition truthy (v : jvalue) : bool :=
  match v with
  | JNull => false
  | JStr s => nonempty s
  end.

(** [medicine.get(field)] *)
Definition get (m : medicine) (field : pystr) : jvalue :=
  default JNull (m !! field).

(** [medicine.get(field, d)] *)
Definition get_or (m : medicine) (field : pystr) (d : jvalue) : jvalue :=
  default d (m !! field).

(** [a or b] *)
Definition or_else (a b : jvalue) : jvalue := if truthy a then a else b.

(** A value interpolated in an f-string. *)
Definition format_value (v : jvalue) : pystr :=
  match v with
  | JNull => u "None"
  | JStr s => s
  end.

(** [v[:n]]: defined on strings, a [TypeError] on [None]. *)
Definition slice_to (n : nat) (v : jvalue) : result pystr :=
  match v with
  | JNull => Raise TypeError
  | JStr s => Return (take n s)
  end.

(** The field tables of [_format_medicine_data]. *)
Definition permit_fields : list (pystr * pystr) :=
  [ (u "itemName", u "의약품명");
    (u "entpName", u "제조사");
    (u "efcyQesitm", u "효능효과");
    (u "useMethodQesitm", u "용법용량");
    (u "atpnWarnQesitm", u "주의사항 경고");
    (u "atpnQesitm", u "주의사항");
    (u "intrcQesitm", u "상호작용");
    (u "seQesitm", u "부작용");
    (u "depositMethodQesitm", u "보관방법") ].

Definition overview_fields : list (list pystr * pystr) :=
  [ ([u "item_name"; u "ITEM_NAME"], u "의약품명");
    ([u "entp_name"; u "ENTP_NAME"], u "제조사");
    ([u "chart"; u "CHART"], u "성상");
    ([u "drug_shape"; u "DRUG_SHAPE"], u "의약품 모양");
    ([u "color_class1"; u "COLOR_CLASS1"], u "색상 앞");
    ([u "color_class2"; u "COLOR_CLASS2"], u "색상 뒤");
    ([u "class_name"; u "CLASS_NAME"], u "약품 분류");
    ([u "etc_otc_name"; u "ETC_OTC_NAME"], u "전문/일반") ].

(** [f"{label}: {medicine[field]}"]; the subscript is evaluated only
    after [medicine.get(field)] was found true, so the key is there. *)
Definition field_line (m : medicine) (field label : pystr) : pystr :=
  label ++ u ": " ++ format_value (get m field).

(** [for field, label in fields: if medicine.get(field): text_parts.append(..)] *)
Fixpoint permit_loop (m : medicine) (fields : list (pystr * pystr))
    (text_parts : list pystr) : list pystr :=
  match fields with
  | [] => text_parts
  | (field, label) :: fields =>
      if truthy (get m field)
      then permit_loop m fields (text_parts ++ [field_line m field label])
      else permit_loop m fields text_parts
  end.

(** The inner loop of the overview branch, left by [break] at the first
    candidate key with a true value. *)
Fixpoint candidates_loop (m : medicine) (field_names : list pystr) (label : pystr)
    (text_parts : list pystr) : list pystr :=
  match field_names with
  | [] => text_parts
  | field :: field_names =>
      if truthy (get m field)
      then text_parts ++ [field_line m field label]
      else candidates_loop m field_names label text_parts
  end.

Fixpoint overview_loop (m : medicine) (fields : list (list pystr * pystr))
    (text_parts : list pystr) : list pystr :=
  match fields with
  | [] => text_parts
  | (field_names, label) :: fields =>
      overview_loop m fields (candidates_loop m field_names label text_parts)
  end.

(** [LLMModule._format_medicine_data(medicine, source_type)] *)
Definition _format_medicine_data (m : medicine) (source_type : pystr) : option pystr :=
  let text_parts :=
    if decide (source_type = u "permit")
    then permit_loop m permit_fields []
    else overview_loop m overview_fields [] in
  match text_parts with
  | [] => None
  | _ :: _ => Some (join nl text_parts)
  end.

(** [Document(text=.., metadata={"source": .., "item_name": ..})] *)
Record Document : Type := {
  text : pystr;
  source : pystr;
  item_name : pystr
}.

(** Truth value of the formatter's result in [if text:]. *)
Definition text_true (t : option pystr) : bool :=
  match t with
  | Some s => nonempty s
  | None => false
  end.

(** The body of the loop over the records of the permit file: [None]
    when no document is appended. *)
Definition permit_document (m : medicine) : result (option Document) :=
  let text := _format_medicine_data m (u "permit") in
  if text_true text then
    bind (slice_to 100 (get_or m (u "itemName") (JStr [])))
      (λ name, Return (Some {| text := default [] text;
                                source := u "permit";
                                item_name := name |}))
  else Return None.

(** The body of the loop over the records of the overview file. *)
Definition overview_document (m : medicine) : result (option Document) :=
  let text := _format_medicine_data m (u "overview") in
  if text_true text then
    bind (slice_to 100 (or_else (get m (u "item_name"))
                                (get_or m (u "ITEM_NAME") (JStr []))))
      (λ name, Return (Some {| text := default [] text;
                                source := u "overview";
                                item_name := name |}))
  else Return None.

(** [for medicine in medicines: ..]: the list [documents] is extended
    in place, so what was appended before an exception stays. *)
Fixpoint ingest (body : medicine → result (option Document))
    (medicines : list medicine) (documents : list Document)
    : list Document * result unit :=
  match medicines with
  | [] => (documents, Return tt)
  | m :: medicines =>
      match body m with
      | Raise e => (documents, Raise e)
      | Return None => ingest body medicines documents
      | Return (Some doc) => ingest body medicines (documents ++ [doc])
      end
  end.

(** *** The world outside the program *)

(** The persisted index is opaque to the program; the model keeps the
    documents it was built from. *)
Record Index : Type := { indexed : list Document }.

(** What a path of the file system leads to. *)
Inductive node : Type :=
| File (medicines : option (list medicine))
    (* [None]: [json.load] fails, or the value read has no [get];
       [Some l]: [data.get('medicines', [])] is [l] *)
| Dir (stored : option Index).
    (* [None]: [load_index_from_storage] fails on this directory *)

(** The calls the program makes on the world, in the order made. *)
Inductive event : Type :=
| PathExists (path : pystr)          (* os.path.exists(path) *)
| OpenRead (path : pystr)            (* open(path, 'r') and json.load *)
| LoadIndex (path : pystr)           (* load_index_from_storage *)
| FromDocuments (docs : list Document) (* VectorStoreIndex.from_documents *)
| Persist (path : pystr).            (* index.storage_context.persist *)

Record state : Type := {
  fs : gmap pystr node;
  log : list event
}.

Definition record_event (e : event) (st : state) : state :=
  {| fs := fs st; log := log st ++ [e] |}.

(** Computations that call the world and may raise. *)
Definition IO (A : Type) : Type := state → result A * state.

Definition io_ret {A} (a : A) : IO A := λ st, (Return a, st).

Definition io_bind {A B} (c : IO A) (k : A → IO B) : IO B :=
  λ st, match c st with
        | (Return a, st') => k a st'
        | (Raise e, st') => (Raise e, st')
        end.

Definition io_try {A} (body : IO A) (handler : exn → IO A) : IO A :=
  λ st, match body st with
        | (Return a, st') => (Return a, st')
        | (Raise e, st') => handler e st'
        end.

Notation "x <- c ;; k" := (io_bind c (λ x, k))
  (at level 100, c at next level, right associativity).

Definition path_exists (path : pystr) : IO bool :=
  λ st, (Return (bool_decide (is_Some (fs st !! path))),
         record_event (PathExists path) st).

(** [with open(path) as f: data = json.load(f)] followed by
    [data.get('medicines', [])]. *)
Definition read_medicines (path : pystr) : IO (list medicine) :=
  λ st, (match fs st !! path with
         | Some (File (Some l)) => Return l
         | _ => Raise FileError
         end,
         record_event (OpenRead path) st).

(** [load_index_from_storage(StorageContext.from_defaults(persist_dir=path))] *)
Definition load_index_from_storage (path : pystr) : IO Index :=
  λ st, (match fs st !! path with
         | Some (Dir (Some idx)) => Return idx
         | _ => Raise StorageError
         end,
         record_event (LoadIndex path) st).

(** The retriever, the synthesizer and the postprocessor are objects of
    the retrieval library; the program only fixes their settings. *)
Record QueryEngine : Type := {
  retriever_index : option Index;
  similarity_top_k : N;
  response_mode : pystr;
  similarity_cutoff : Q
}.

Record LLMModule : Type := {
  e_data_path : pystr;
  n_data_path : pystr;
  index : option Index;
  query_engine : option QueryEngine
}.

Definition set_index (self : LLMModule) (idx : option Index) : LLMModule :=
  {| e_data_path := e_data_path self; n_data_path := n_data_path self;
     index := idx; query_engine := query_engine self |}.

Definition set_query_engine (self : LLMModule) (qe : option QueryEngine) : LLMModule :=
  {| e_data_path := e_data_path self; n_data_path := n_data_path self;
     index := index self; query_engine := qe |}.

(** One of the two blocks of [_load_data]: the file is read when it
    exists. An exception raised by [open] or [json.load] reaches the
    handler with [documents] untouched; one raised in the loop reaches
    it with [documents] as the loop extended it. The handler prints and
    the loading goes on. *)
Definition load_source (path : pystr) (body : medicine → result (option Document))
    (documents : list Document) : IO (list Document) :=
  present <- path_exists path ;;
  if present : bool then
    io_try (medicines <- read_medicines path ;;
            match ingest body medicines documents with
            | (documents, Return _) => io_ret documents
            | (documents, Raise e) =>
                (* except Exception as e: print(..) *)
                io_ret documents
            end)
           (λ _, io_ret documents)
  else io_ret documents.

(** [LLMModule._load_data()] *)
Definition _load_data (self : LLMModule) : IO (list Document) :=
  documents <- load_source (e_data_path self) permit_document [] ;;
  documents <- load_source (n_data_path self) overview_document documents ;;
  io_ret documents.

(** [LLMModule._setup_query_engine()] *)
Definition _setup_query_engine (self : LLMModule) : LLMModule :=
  set_query_engine self
    (Some {| retriever_index := index self;
             similarity_top_k := 10;
             response_mode := u "tree_summarize";
             similarity_cutoff := (3 # 10)%Q |}).

Definition index_path : pystr := u "./medicine_index".

Section Services.

(** The embedding service behind [VectorStoreIndex.from_documents]:
    [None] when it succeeds, the exception when it fails. *)
Variable embed : list Document → option exn.

(** The storage behind [storage_context.persist]: [None] when the
    index is written; when the writing fails, the exception and what it
    leaves at the path, if anything (a directory begun, for one). *)
Variable persist_failure : Index → option (exn * option node).

(** [str(self.query_engine.query(prompt))] and
    [str(self.llm.complete(prompt))]: what the hosted services answer,
    or the exception they raise. *)
Variable engine_query : QueryEngine → pystr → result pystr.
Variable llm_complete : pystr → result pystr.

Definition from_documents (documents : list Document) : IO Index :=
  λ st, (match embed documents with
         | None => Return {| indexed := documents |}
         | Some e => Raise e
         end,
         record_event (FromDocuments documents) st).

(** [index.storage_context.persist(persist_dir=path)]. When it succeeds
    the directory holds the index; when it fails, the exception leaves
    it and the path holds what the failed call left there. *)
Definition persist (idx : Index) (path : pystr) : IO unit :=
  λ st, match persist_failure idx with
        | None =>
            (Return tt,
             {| fs := <[path := Dir (Some idx)]> (fs st);
                log := log st ++ [Persist path] |})
        | Some (e, remains) =>
            (Raise e,
             {| fs := match remains with
                      | Some n => <[path := n]> (fs st)
                      | None => fs st
                      end;
                log := log st ++ [Persist path] |})
        end.

(** The end of [_build_index]: [if self.index: self._setup_query_engine()]. *)
Definition finish_build (self : LLMModule) : LLMModule :=
  match index self with
  | Some _ => _setup_query_engine self
  | None => self
  end.

(** [LLMModule._build_index()] *)
Definition _build_index (self : LLMModule) : IO LLMModule :=
  present <- path_exists index_path ;;
  if present : bool then
    idx <- load_index_from_storage index_path ;;
    io_ret (finish_build (set_index self (Some idx)))
  else
    documents <- _load_data self ;;
    match documents with
    | _ :: _ =>
        idx <- from_documents documents ;;
        _ <- persist idx index_path ;;
        io_ret (finish_build (set_index self (Some idx)))
    | [] => io_ret self
    end.

(** [LLMModule._enhance_question(question, ocr_context)] *)
Definition _enhance_question (question : pystr) (ocr_context : option pystr) : pystr :=
  let enhanced :=
    u "의약품 정보 데이터베이스를 바탕으로 다음 질문에 답해주세요." ++ nl ++ nl in
  let enhanced :=
    match ocr_context with
    | Some ((_ :: _) as ctx) =>
        enhanced ++ u "사용자가 입력으로 넣은 의약품 정보입니다 : " ++ ctx ++ nl ++ nl
    | _ => enhanced
    end in
  let enhanced := enhanced ++ u "질문: " ++ question ++ nl ++ nl in
  let enhanced := enhanced ++ u "답변은 일반인이 이해하기 쉽게 설명해주시고, 중요한 주의사항이 있다면 반드시 포함해주세요. 핵심 요점을 먼저 이야기하고, 가급적 물어본 질문의 핵심 내용만 대답해주세요. 질문에 포함되지 않는 내용은 답변하지 마세요." in
  if contains (u "부작용") question then
    enhanced ++ u " 부작용과 이상반응 정보를 중심으로 설명해주세요."
  else if contains (u "용법") question || contains (u "용량") question then
    enhanced ++ u " 알약의 경우 몇 알 단위로, 액체의 경우 mg 단위로 설명해주세요. 사용법 또는 용량을 중심으로 설명해주세요."
  else if contains (u "상호작용") question || contains (u "같이") question then
    enhanced ++ u " 약물 상호작용과 병용 금기 정보를 중심으로 설명해주세요."
  else enhanced.

(** [LLMModule.query(question, ocr_context)] on a console that takes
    every line: the value the method computes, its printing left out.
    [Console.query] below is the method with its prints. *)
Definition query (self : LLMModule) (question : pystr) (ocr_context : option pystr)
    : result pystr :=
  let enhanced_question := _enhance_question question ocr_context in
  try_except
    (bind (match query_engine self with
           | Some qe => engine_query qe enhanced_question
           | None => llm_complete enhanced_question
           end)
       (λ answer,
          let answer :=
            if negb (nonempty answer) || negb (nonempty (strip answer))
            then u "죄송합니다. 관련된 정보를 찾을 수 없습니다."
            else answer in
          Return answer))
    (λ _, Return (u "죄송합니다. 질문 처리 중 오류가 발생했습니다.")).

End Services.

End LLM.

(** ** [LLMModule.query] and its console *)

Module Console.

Import LLM.

Section Stdout.

(** [print(text)] writes to [sys.stdout], which raises when it cannot
    take the text: a [UnicodeEncodeError] for a character its encoding
    lacks. [stdout text] is what writing [text] raises, if anything. *)
Variable stdout : pystr → option exn.

(** [str(e)] *)
Variable message : exn → pystr.

Variable engine_query : QueryEngine → pystr → result pystr.
Variable llm_complete : pystr → result pystr.

Definition print (text : pystr) : result unit :=
  match stdout text with
  | Some e => Raise e
  | None => Return ()
  end.

(** The three lines [query] prints. *)
Definition progress_line (question : pystr) : pystr :=
  u "💭 질문 처리 중: '" ++ take 50 question ++ u "...'".

Definition context_line : pystr := u "  📄 OCR 컨텍스트 포함".

Definition error_line (e : exn) : pystr := u "❌ 질문 처리 중 오류: " ++ message e.

(** [LLMModule.query(question, ocr_context)]: the two prints before
    [try] are guarded by nothing, and the handler prints before it
    returns. *)
Definition query (self : LLMModule) (question : pystr) (ocr_context : option pystr)
    : result pystr :=
  let enhanced_question := _enhance_question question ocr_context in
  bind (print (progress_line question)) (λ _,
  bind (match ocr_context with
        | Some (_ :: _) => print context_line
        | _ => Return ()
        end) (λ _,
  try_except
    (bind (match query_engine self with
           | Some qe => engine_query qe enhanced_question
           | None => llm_complete enhanced_question
           end)
       (λ answer,
          let answer :=
            if negb (nonempty answer) || negb (nonempty (strip answer))
            then u "죄송합니다. 관련된 정보를 찾을 수 없습니다."
            else answer in
          Return answer))
    (λ e,
       bind (print (error_line e))
         (λ _, Return (u "죄송합니다. 질문 처리 중 오류가 발생했습니다."))))).

End Stdout.

(** A console encoded in UTF-8: every text but one with a surrogate
    code point can be written. *)
Definition utf8_stdout : pystr → option exn :=
  λ text,
    if forallb (λ c, negb ((55296 <=? c) && (c <=? 57343))) text
    then None else Some UnicodeEncodeError.

(** The text of a service failure is its message. *)
Definition service_message : exn → pystr :=
  λ e, match e with ServiceError msg => msg | _ => [] end.

End Console.
Import LLM.


(** ** The specification's vocabulary

    What follows is written from the specification's sentences, to be
    compared with the definitions above, which are written from the
    code. *)

Module Spec.

(** The fixed apology returned when retrieval or synthesis fails. *)
Definition apology_message : pystr :=
  u "죄송합니다. 질문 처리 중 오류가 발생했습니다.".

(** The fixed message that replaces an empty answer. *)
Definition fallback_message : pystr :=
  u "죄송합니다. 관련된 정보를 찾을 수 없습니다.".

(** The three category instructions of the question enhancer. *)
Definition side_effect_suffix : pystr :=
  u " 부작용과 이상반응 정보를 중심으로 설명해주세요.".

Definition dosage_suffix : pystr :=
  u " 알약의 경우 몇 알 단위로, 액체의 경우 mg 단위로 설명해주세요. 사용법 또는 용량을 중심으로 설명해주세요.".

Definition interaction_suffix : pystr :=
  u " 약물 상호작용과 병용 금기 정보를 중심으로 설명해주세요.".

(** The enhanced prompt before any category instruction: preamble,
    optional block with the text read from the box, the question, the
    fixed answer-style instructions. *)
Definition prompt_body (question : pystr) (ocr_context : option pystr) : pystr :=
  u "의약품 정보 데이터베이스를 바탕으로 다음 질문에 답해주세요." ++ nl ++ nl
  ++ match ocr_context with
     | None | Some [] => []
     | Some ctx => u "사용자가 입력으로 넣은 의약품 정보입니다 : " ++ ctx ++ nl ++ nl
     end
  ++ u "질문: " ++ question ++ nl ++ nl
  ++ u "답변은 일반인이 이해하기 쉽게 설명해주시고, 중요한 주의사항이 있다면 반드시 포함해주세요. 핵심 요점을 먼저 이야기하고, 가급적 물어본 질문의 핵심 내용만 대답해주세요. 질문에 포함되지 않는 내용은 답변하지 마세요.".

(** The explanatory wrapper around the text read from the box. *)
Definition ocr_template (t : pystr) : pystr :=
  u "[약품 상자에서 추출된 정보]" ++ nl ++ t ++ nl ++ nl
  ++ u "위 정보는 사용자가 제시한 약품 상자에서 OCR로 추출한 내용입니다." ++ nl
  ++ u "이 정보를 참고하여 질문에 답변해주세요.".

(** [t] is [s] without the white space at its two ends. *)
Definition stripped_of (s t : pystr) : Prop :=
  ∃ l r, s = l ++ t ++ r ∧ blank l ∧ blank r ∧
         (∀ c t', t = c :: t' → isspace c = false) ∧
         (∀ t' c, t = t' ++ [c] → isspace c = false).

(** A field of a record holds text: the key is there and its value is
    a string that is not empty. *)
Definition has_text (m : medicine) (key : pystr) : Prop :=
  ∃ s, m !! key = Some (JStr s) ∧ s ≠ [].

(** The schema of a source: its logical fields in priority order, each
    with its candidate keys and its display label. The permit schema
    has one key per field. *)
Definition schema (source_type : pystr) : list (list pystr * pystr) :=
  if decide (source_type = u "permit")
  then map (λ fl, ([fl.1], fl.2)) permit_fields
  else overview_fields.

(** The keys a schema recognizes. *)
Definition recognized_keys (source_type : pystr) : list pystr :=
  concat (map fst (schema source_type)).

(** A logical field is non-empty when one of its keys holds text. *)
Definition field_nonempty (m : medicine) (keys : list pystr) : Prop :=
  ∃ key, key ∈ keys ∧ has_text m key.

(** The text of a logical field: that of its first key holding text. *)
Fixpoint first_text (m : medicine) (keys : list pystr) : option pystr :=
  match keys with
  | [] => None
  | key :: keys =>
      match m !! key with
      | Some (JStr (c :: s)) => Some (c :: s)
      | _ => first_text m keys
      end
  end.

(** The line of a logical field, when it has one. *)
Definition line_of (m : medicine) (fld : list pystr * pystr) : option pystr :=
  (λ v, fld.2 ++ u ": " ++ v) <$> first_text m fld.1.

(** One line per non-empty field, in schema order. *)
Definition expected_lines (m : medicine) (source_type : pystr) : list pystr :=
  omap (line_of m) (schema source_type).

(** Upper case of a key written in ASCII letters, digits and [_]. *)
Definition ascii_upper (s : pystr) : pystr :=
  map (λ c, if (97 <=? c) && (c <=? 122) then c - 32 else c) s.

End Spec.
Import Spec.

(** ** Sample records *)

Module Sample.

(** A permit record with a manufacturer and a null name. *)
Definition null_name : medicine :=
  <[u "itemName" := JNull]> (<[u "entpName" := JStr (u "한미약품")]> ∅).

(** A permit record with a name and a usage text. *)
Definition tylenol : medicine :=
  <[u "itemName" := JStr (u "타이레놀")]>
    (<[u "useMethodQesitm" := JStr (u "1회 1정")]>
       (<[u "seQesitm" := JStr []]> ∅)).

(** An overview record with both casings of the name. *)
Definition both_casings : medicine :=
  <[u "item_name" := JStr (u "타이레놀")]>
    (<[u "ITEM_NAME" := JStr (u "TYLENOL")]> ∅).

(** A record whose recognized fields are all empty or null. *)
Definition all_empty : medicine :=
  <[u "itemName" := JStr []]> (<[u "entpName" := JNull]>
    (<[u "memo" := JStr (u "x")]> ∅)).

Definition tylenol_document : Document :=
  {| text := u "의약품명: 타이레놀" ++ nl ++ u "용법용량: 1회 1정";
     source := u "permit";
     item_name := u "타이레놀" |}.

(** A module before its index is built, with the default paths. *)
Definition fresh_module : LLMModule :=
  {| e_data_path := u "e_data.json"; n_data_path := u "n_data.json";
     index := None; query_engine := None |}.

(** A world where an index was persisted by an earlier run, and where
    the permit file has changed since. *)
Definition persisted_world : state :=
  {| fs := <[index_path := Dir (Some {| indexed := [tylenol_document] |})]>
             (<[u "e_data.json" := File (Some [null_name; tylenol])]> ∅);
     log := [] |}.

(** A world with a permit file whose second record has a null name. *)
Definition null_name_world : state :=
  {| fs := <[u "e_data.json" := File (Some [tylenol; null_name; tylenol])]> ∅;
     log := [] |}.

(** Services that fail, and services that answer with white space. *)
Definition failing_engine : QueryEngine → pystr → result pystr :=
  λ _ _, Raise (ServiceError (u "timeout")).

Definition failing_llm : pystr → result pystr :=
  λ _, Raise (ServiceError (u "timeout")).

Definition blank_llm : pystr → result pystr :=
  λ _, Return [32; 10; 12288].

(** A world without index directory and without source files. *)
Definition empty_world : state := {| fs := ∅; log := [] |}.

End Sample.

(** ** [LLMModule.__init__] *)

Module Startup.

(** How the construction of the module ends: with the module, with the
    [ValueError] of the missing API key, or with an exception of
    [_build_index]. *)
Inductive init_outcome : Type :=
| Ready (self : LLMModule)
| ConfigError
| BuildFailed (e : exn).

Section Init.

Variable embed : list Document → option exn.
Variable persist_failure : Index → option (exn * option node).

(** [LLMModule(e_data_path, n_data_path)], with [api_key] the value of
    [os.getenv("OPENAI_API_KEY")]. The two client objects and the
    settings it stores are configuration; they are not modelled. *)
Definition __init__ (api_key : option pystr) (e_data_path n_data_path : pystr)
    : state → init_outcome * state :=
  λ st,
    match api_key with
    | Some (_ :: _) =>
        match _build_index embed persist_failure
                {| LLM.e_data_path := e_data_path; LLM.n_data_path := n_data_path;
                   index := None; query_engine := None |} st with
        | (Return self, st') => (Ready self, st')
        | (Raise e, st') => (BuildFailed e, st')
        end
    | _ => (ConfigError, st)
    end.

End Init.

End Startup.

(** ** Vocabulary for the loader *)

Module Loader.

(** What one source file contributes: the documents its loop appends,
    up to the record that raises if there is one; nothing when the file
    is missing or cannot be read. *)
Definition file_documents (body : medicine → result (option Document))
    (entry : option node) : list Document :=
  match entry with
  | Some (File (Some medicines)) => (ingest body medicines []).1
  | _ => []
  end.

(** The calls made for one source file. *)
Definition file_events (path : pystr) (entry : option node) : list event :=
  match entry with
  | Some _ => [PathExists path; OpenRead path]
  | None => [PathExists path]
  end.

(** The keys under which a schema looks for the name of the medicine. *)
Definition name_keys (source_type : pystr) : list pystr :=
  if decide (source_type = u "permit") then [u "itemName"]
  else [u "item_name"; u "ITEM_NAME"].

End Loader.
Import Loader.

(** ** More sample worlds *)

Module Cases.

(** A world with a permit file of one record and no index directory. *)
Definition first_run_world : state :=
  {| fs := <[u "e_data.json" := File (Some [Sample.tylenol])]> ∅; log := [] |}.

(** The index the first run builds in that world. *)
Definition first_index : Index := {| indexed := [Sample.tylenol_document] |}.

(** An overview record described by its appearance only, with a null
    upper-case name. *)
Definition unnamed : medicine :=
  <[u "ITEM_NAME" := JNull]> (<[u "chart" := JStr (u "흰색의 정제")]> ∅).

(** The document of [Sample.both_casings]. *)
Definition named_document : Document :=
  {| text := u "의약품명: 타이레놀"; source := u "overview";
     item_name := u "타이레놀" |}.

(** A world whose overview file has the unnamed record between two
    named ones. *)
Definition unnamed_world : state :=
  {| fs := <[u "n_data.json" :=
               File (Some [Sample.both_casings; unnamed; Sample.both_casings])]> ∅;
     log := [] |}.

End Cases.

(** ** [ocr_module.py]: extraction of the text of an image *)

Module Extraction.

Section Recognizer.

(** Images (the content of an image file, an array in memory), the
    confidence scores of the recognizer (floats) and the polygons
    around the regions are opaque to the program. *)
Context {image score poly : Type}.

(** One element of ['rec_texts']: a [str], or a value of another type. *)
Definition rec_text : Type := option pystr.

(** What [self.ocr_model.predict(img_path)] returns, as far as
    [extract_text_from_image] looks into it. *)
Inductive prediction : Type :=
| NoPages            (* not a list, or an empty list *)
| PageNotDict        (* the first element is not a dict *)
| PageWithoutTexts   (* the first element has no key 'rec_texts' *)
| Page (rec_texts : list rec_text) (rec_scores : list score) (rec_polys : list poly).
    (* absent 'rec_scores' or 'rec_polys': the empty list *)

(** The services the OCR module calls. *)
Record services : Type := {
  (* [confidence > 0.3] on a score of the recognizer *)
  above_cutoff : score → bool;
  (* [predict] on the file with that content *)
  predict : image → result prediction;
  (* [cv2.imread] and the four filters of [preprocess_image]: [None]
     when the file does not decode or a filter raises *)
  enhance : image → option image;
  (* [cv2.imwrite]: raises, writes nothing, or writes a file *)
  imwrite : image → result (option image);
  (* [os.remove] on an existing file: the exception, if it fails *)
  remove_error : pystr → option exn
}.

(** The confidence of a region: its score, or the default [1.0] when
    the scores are fewer than the texts. *)
Inductive confidence : Type :=
| Score (s : score)
| DefaultScore.

(** [confidence > 0.3]; the default [1.0] is above the cutoff. *)
Definition confident (sv : services) (c : confidence) : bool :=
  match c with
  | Score s => above_cutoff sv s
  | DefaultScore => true
  end.

(** An entry of [detailed_results]; [None] for the bbox is the empty
    list given to a region without polygon. *)
Record detail : Type := {
  d_text : pystr;
  d_confidence : confidence;
  d_bbox : option poly
}.

(** What [extract_text_from_image] returns: the pair of the combined
    text and the details, the pair [(None, None)], or, when it runs off
    its last branch, [None] alone. *)
Inductive extraction : Type :=
| Extracted (combined_text : pystr) (detailed_results : list detail)
| Nothing
| BareNone.

(** [for i, text in enumerate(rec_texts): ..], from index [i] on. *)
Fixpoint collect (sv : services) (rec_scores : list score) (rec_polys : list poly)
    (rec_texts : list rec_text) (i : nat)
    (extracted_texts : list pystr) (detailed_results : list detail)
    : list pystr * list detail :=
  match rec_texts with
  | [] => (extracted_texts, detailed_results)
  | text :: rec_texts =>
      let confidence :=
        match rec_scores !! i with Some s => Score s | None => DefaultScore end in
      let bbox := rec_polys !! i in
      match text with
      | Some ((_ :: _) as text) =>
          let text := strip text in
          if nonempty text && confident sv confidence then
            collect sv rec_scores rec_polys rec_texts (S i)
              (extracted_texts ++ [text])
              (detailed_results
               ++ [{| d_text := text; d_confidence := confidence; d_bbox := bbox |}])
          else collect sv rec_scores rec_polys rec_texts (S i)
                 extracted_texts detailed_results
      | _ => collect sv rec_scores rec_polys rec_texts (S i)
               extracted_texts detailed_results
      end
  end.

(** [OCRModule.extract_text_from_image(img_path)], in a file system
    [files]. *)
Definition extract_text_from_image (sv : services) (files : gmap pystr image)
    (img_path : pystr) : extraction :=
  match files !! img_path with
  | None => Nothing
  | Some content =>
      match predict sv content with
      | Raise _ => Nothing
      | Return NoPages => Nothing
      | Return PageNotDict => Nothing
      | Return PageWithoutTexts => Nothing
      | Return (Page rec_texts rec_scores rec_polys) =>
          match rec_texts with
          | [] => BareNone
          | _ :: _ =>
              match collect sv rec_scores rec_polys rec_texts 0 [] [] with
              | ([], _) => Nothing
              | (extracted_texts, detailed_results) =>
                  Extracted (join (u " ") extracted_texts) detailed_results
              end
          end
      end
  end.

(** [OCRModule.preprocess_image(img_path)] *)
Definition preprocess_image (sv : services) (files : gmap pystr image)
    (img_path : pystr) : option image :=
  match files !! img_path with
  | None => None
  | Some content => enhance sv content
  end.

(** What [extract_text_with_preprocessing] returns: the pair of a text
    and its details, or [(None, None)]. *)
Inductive found : Type :=
| Found (text : pystr) (details : list detail)
| NotFound.

Definition temp_path : pystr := u "temp_preprocessed.jpg".

(** [OCRModule.extract_text_with_preprocessing(img_path)]: the result,
    and the file system it leaves. Unpacking the [None] that
    [extract_text_from_image] may return raises a [TypeError]: at the
    first call nothing catches it, at the second the handler of the
    retry does. *)
Definition extract_text_with_preprocessing (sv : services)
    (files : gmap pystr image) (img_path : pystr)
    : result found * gmap pystr image :=
  let retry :=
    match preprocess_image sv files img_path with
    | None => (Return NotFound, files)
    | Some preprocessed_img =>
        match imwrite sv preprocessed_img with
        | Raise _ => (Return NotFound, files)
        | Return written =>
            let files :=
              match written with
              | Some content => <[temp_path := content]> files
              | None => files
              end in
            match extract_text_from_image sv files temp_path with
            | BareNone => (Return NotFound, files)
            | Extracted text details =>
                match files !! temp_path with
                | Some _ =>
                    match remove_error sv temp_path with
                    | Some _ => (Return NotFound, files)
                    | None => (Return (Found text details), delete temp_path files)
                    end
                | None => (Return (Found text details), files)
                end
            | Nothing =>
                match files !! temp_path with
                | Some _ =>
                    match remove_error sv temp_path with
                    | Some _ => (Return NotFound, files)
                    | None => (Return NotFound, delete temp_path files)
                    end
                | None => (Return NotFound, files)
                end
            end
        end
    end in
  match extract_text_from_image sv files img_path with
  | BareNone => (Raise TypeError, files)
  | Extracted text details =>
      if nonempty text && nonempty (strip text)
      then (Return (Found text details), files)
      else retry
  | Nothing => retry
  end.

End Recognizer.

Arguments prediction : clear implicits.
Arguments services : clear implicits.
Arguments confidence : clear implicits.
Arguments detail : clear implicits.
Arguments extraction : clear implicits.
Arguments found : clear implicits.

(** A string without white space at its ends, and not empty. *)
Definition trimmed (s : pystr) : Prop :=
  s ≠ [] ∧ (∀ c r, s = c :: r → isspace c = false) ∧
  (∀ r c, s = r ++ [c] → isspace c = false).

(** The regions [extract_text_from_image] keeps, written as a
    comprehension: region [i] is kept when its text is a [str] that is
    not blank and its confidence is above the cutoff; its text is kept
    stripped. *)
Definition kept_region {image score poly} (sv : services image score poly)
    (rec_scores : list score) (rec_polys : list poly) (i : nat) (text : rec_text)
    : option (detail score poly) :=
  match text with
  | None => None
  | Some t =>
      let c := match rec_scores !! i with Some s => Score s | None => DefaultScore end in
      if nonempty (strip t) && confident sv c
      then Some {| d_text := strip t; d_confidence := c; d_bbox := rec_polys !! i |}
      else None
  end.

Definition kept_regions {image score poly} (sv : services image score poly)
    (rec_texts : list rec_text) (rec_scores : list score) (rec_polys : list poly)
    : list (detail score poly) :=
  omap (λ it, kept_region sv rec_scores rec_polys it.1 it.2)
       (zip (seq 0 (length rec_texts)) rec_texts).

End Extraction.

(** ** A sample recognizer *)

Module OCRCases.

Import Extraction.

(** Images are numbered; a score is the outcome of its comparison with
    the cutoff. Image 0 is a box with five regions, image 1 shows no
    text, image 2 is too dark to read and is lightened into image 3,
    image 5 makes the recognizer fail and is filtered into image 4,
    where no text is found. *)
Definition recognizer : services nat bool unit :=
  {| above_cutoff := λ b, b;
     predict := λ img,
       match img with
       | 0 => Return (Page [Some (u " 타이레놀 "); Some (u "500mg"); None;
                            Some (u "  "); Some (u "정")] [true; false] [])
       | 1 => Return (Page [] [] [])
       | 2 => Return NoPages
       | 3 => Return (Page [Some (u "게보린")] [] [])
       | 4 => Return (Page [] [] [])
       | _ => Raise (ServiceError (u "predict"))
       end%nat;
     enhance := λ img, match img with 2 => Some 3 | 5 => Some 4 | _ => None end%nat;
     imwrite := λ img, Return (Some img);
     remove_error := λ _, None |}.

Definition images : gmap pystr nat :=
  <[u "box.jpg" := 0%nat]> (<[u "blank.jpg" := 1%nat]>
    (<[u "dark.jpg" := 2%nat]> (<[u "noisy.jpg" := 5%nat]> ∅))).

Definition box_details : list (detail bool unit) :=
  [ {| d_text := u "타이레놀"; d_confidence := Score true; d_bbox := None |};
    {| d_text := u "정"; d_confidence := DefaultScore; d_bbox := None |} ].

End OCRCases.

(** ** The voice module ([voice_module.py]) *)

Module Voice.

Import Py.

(** [l.remove(x)]: the list without its first item equal to [x];
    [None] is the [ValueError] raised when no item equals [x]. *)
Fixpoint remove (x : pystr) (l : list pystr) : option (list pystr) :=
  match l with
  | [] => None
  | y :: l' => if decide (x = y) then Some l' else (y ::.) <$> remove x l'
  end.

Section Disk.

(** [os.unlink] on an existing path removes it or raises; the paths on
    which it raises (a file still in use, a missing permission) are
    given from outside. *)
Variable unlink_fails : pystr → bool.

(** One round of the loop of [_cleanup_temp_files], on the tracked list
    [self.temp_files] and the set of existing paths. The handler is a
    bare [except: pass]: whatever the body raises, the round ends with
    what the body had done before. *)
Definition cleanup_round (st : list pystr * gset pystr) (filepath : pystr)
    : list pystr * gset pystr :=
  let '(temp_files, disk) := st in
  if decide (filepath ∈ disk) then
    if unlink_fails filepath then (temp_files, disk)
    else
      let disk := disk ∖ {[filepath]} in
      match remove filepath temp_files with
      | Some temp_files => (temp_files, disk)
      | None => (temp_files, disk)
      end
  else
    match remove filepath temp_files with
    | Some temp_files => (temp_files, disk)
    | None => (temp_files, disk)
    end.

(** [VoiceModule._cleanup_temp_files()]: the loop runs over a copy of
    the tracked list, [self.temp_files[:]]. *)
Definition _cleanup_temp_files (temp_files : list pystr) (disk : gset pystr)
    : list pystr * gset pystr :=
  foldl cleanup_round (temp_files, disk) temp_files.

(** [self.whisper_model.transcribe(path, ...)] followed by the
    iteration over its segments: the texts of the segments, or the
    exception raised on the way. *)
Variable transcribe : pystr → result (list pystr).

(** [VoiceModule._speech_to_text(audio_file_path)] *)
Definition _speech_to_text (disk : gset pystr) (audio_file_path : pystr)
    : option pystr :=
  if decide (audio_file_path ∈ disk) then
    match transcribe audio_file_path with
    | Return segments =>
        let transcribed_text := foldl (λ acc text, acc ++ text) [] segments in
        let transcribed_text := strip transcribed_text in
        if nonempty transcribed_text then Some transcribed_text else None
    | Raise _ => None
    end
  else None.

End Disk.

End Voice.

(** ** The assistant ([main.py]) *)

Module Assistant.

Import Py LLM Extraction.

Section Session.

Context {image score poly : Type}.
Variable sv : services image score poly.
Variable engine_query : QueryEngine → pystr → result pystr.
Variable llm_complete : pystr → result pystr.

(** [str.upper] *)
Variable upper : pystr → pystr.

(** The fields of [MedicineAssistant] that [handle_medicine_query]
    reads and writes. *)
Record MedicineAssistant : Type := {
  llm : LLMModule;
  ocr_context : option pystr
}.

Definition set_ocr_context (self : MedicineAssistant) (ctx : option pystr)
    : MedicineAssistant :=
  {| llm := llm self; ocr_context := ctx |}.

(** What the assistant shares with its user: the image files, and the
    texts handed to [self.voice.speak], in the order of the calls. *)
Record world : Type := {
  files : gmap pystr image;
  spoken : list pystr
}.

Definition speak (text : pystr) (w : world) : world :=
  {| files := files w; spoken := spoken w ++ [text] |}.

Definition set_files (w : world) (fs : gmap pystr image) : world :=
  {| files := fs; spoken := spoken w |}.

Definition ocr_prompt : pystr :=
  u "만약 약품 상자가 있다면 상자를 보여준 뒤 S 버튼을 눌러주세요. 만약 없다면 그냥 S 버튼을 눌러주세요.".
Definition question_prompt : pystr := u "무엇을 물어보시겠습니까?".
Definition no_input_msg : pystr := u "질문을 인식할 수 없었습니다. 다시 시도해주세요.".
Definition image_path : pystr := u "test/tylenol2.jpg".

(** The first half of [handle_medicine_query]: the box is read when the
    user typed S. An exception of the extraction leaves the method. *)
Definition read_box (self : MedicineAssistant) (typed : pystr) (w : world)
    : result unit * MedicineAssistant * world :=
  let user_input := upper (strip typed) in
  if decide (user_input = u "S") then
    match files w !! image_path with
    | Some _ =>
        let '(outcome, fs) :=
          extract_text_with_preprocessing sv (files w) image_path in
        let w := set_files w fs in
        match outcome with
        | Raise e => (Raise e, self, w)
        | Return (Found ocr_text _) =>
            if nonempty ocr_text
            then (Return (), set_ocr_context self (OCR.format_for_llm (Some ocr_text)), w)
            else (Return (), set_ocr_context self None, w)
        | Return NotFound => (Return (), set_ocr_context self None, w)
        end
    | None => (Return (), set_ocr_context self None, w)
    end
  else (Return (), self, w).

(** [MedicineAssistant.handle_medicine_query()], on the rounds in which
    [input] returns a line, [typed], and [self.voice.listen] returns,
    [heard], on a console that takes every line printed. The result is
    the exception that leaves the method if any, the object and the
    world as the method leaves them. *)
Definition handle_medicine_query (self : MedicineAssistant)
    (typed : pystr) (heard : option pystr) (w : world)
    : result unit * MedicineAssistant * world :=
  let w := speak ocr_prompt w in
  match read_box self typed w with
  | (Raise e, self, w) => (Raise e, self, w)
  | (Return _, self, w) =>
      let w := speak question_prompt w in
      match heard with
      | Some ((_ :: _) as user_question) =>
          match query engine_query llm_complete (llm self) user_question
                  (ocr_context self) with
          | Raise e => (Raise e, self, w)
          | Return answer =>
              let w := speak answer w in
              (Return (), set_ocr_context self None, w)
          end
      | _ => (Return (), self, speak no_input_msg w)
      end
  end.

End Session.

Arguments MedicineAssistant : clear implicits.
Arguments world : clear implicits.

End Assistant.

(** ** A sample session *)

Module Desk.

Import Assistant.

(** The box of the sample recognizer lies where the assistant looks
    for it. *)
Definition table : world nat :=
  {| files := <[image_path := 0%nat]> ∅; spoken := [] |}.

Definition assistant : MedicineAssistant :=
  {| llm := Sample.fresh_module; ocr_context := None |}.

(** The same place with a photograph on which nothing is read, and an
    assistant that remembers an earlier box. *)
Definition bare_table : world nat :=
  {| files := <[image_path := 1%nat]> ∅; spoken := [] |}.

Definition reminded : MedicineAssistant :=
  {| llm := Sample.fresh_module; ocr_context := Some (u "게보린") |}.

(** A language model that answers with the prompt it was given. *)
Definition echo : pystr → result pystr := λ prompt, Return prompt.

Definition handle :=
  handle_medicine_query OCRCases.recognizer Sample.failing_engine echo Spec.ascii_upper.

End Desk.

(** * Properties *)

(** ** Strings *)

Example u_hangul : u "가a" = [44032; 97].
Proof. reflexivity. Qed.

(** Literals are compared as written; they are decoded only where a
    proof computes. *)
Opaque u.

Lemma blank_nil : blank [].
Proof. constructor. Qed.

Lemma blank_cons c s : blank (c :: s) ↔ isspace c = true ∧ blank s.
Proof. unfold blank. by rewrite Forall_cons. Qed.

Lemma blank_app s t : blank (s ++ t) ↔ blank s ∧ blank t.
Proof. unfold blank. by rewrite Forall_app. Qed.

Lemma blank_rev s : blank (rev s) ↔ blank s.
Proof.
  unfold blank. split; intros H.
  - rewrite <- (rev_involutive s). by apply List.Forall_rev.
  - by apply List.Forall_rev.
Qed.

Lemma lstrip_nil s : lstrip s = [] ↔ blank s.
Proof.
  induction s as [|c s IH]; simpl.
  - split; [intros _; apply blank_nil | done].
  - rewrite blank_cons. destruct (isspace c) eqn:Hc.
    + rewrite IH. tauto.
    + split; [done | intros [? _]; done].
Qed.

(** What [lstrip] removes is white space, and what it leaves does not
    start with white space. *)
Lemma lstrip_split s :
  ∃ l, s = l ++ lstrip s ∧ blank l ∧
       ∀ c r, lstrip s = c :: r → isspace c = false.
Proof.
  induction s as [|c s (l & Hs & Hl & Hh)]; simpl.
  - exists []. split_and!; [done | apply blank_nil | done].
  - destruct (isspace c) eqn:Hc.
    + exists (c :: l). split_and!; [by rewrite Hs at 1 | by apply blank_cons | done].
    + exists []. split_and!; [done | apply blank_nil |].
      intros c' r [= <- _]. done.
Qed.

Lemma strip_nil s : strip s = [] ↔ blank s.
Proof.
  unfold strip, rstrip. split.
  - intros H. apply (f_equal (@rev N)) in H. rewrite rev_involutive in H.
    simpl in H. apply lstrip_nil in H. rewrite blank_rev in H.
    destruct (lstrip_split s) as (l & Hs & Hl & Hh).
    destruct (lstrip s) as [|c r] eqn:E.
    + by apply lstrip_nil.
    + apply blank_cons in H as [Hc _]. rewrite (Hh c r) in Hc; done.
  - intros H. apply lstrip_nil in H. by rewrite H.
Qed.

(** [strip] removes white space at both ends and nothing else: the
    result, when not empty, starts and ends with a character that is
    not white space. *)
Lemma strip_split s :
  ∃ l r, s = l ++ strip s ++ r ∧ blank l ∧ blank r ∧
         (∀ c t, strip s = c :: t → isspace c = false) ∧
         (∀ t c, strip s = t ++ [c] → isspace c = false).
Proof.
  destruct (lstrip_split s) as (l & Hs & Hl & Hh).
  destruct (lstrip_split (rev (lstrip s))) as (r & Hr & Hbr & Hhr).
  assert (Hmid : lstrip s = strip s ++ rev r).
  { unfold strip, rstrip. rewrite <- rev_app_distr, <- Hr.
    by rewrite rev_involutive. }
  assert (Hlast : ∀ t c, strip s = t ++ [c] → isspace c = false).
  { intros t c Ht. apply (Hhr c (rev t)).
    unfold strip, rstrip in Ht. apply (f_equal (@rev N)) in Ht.
    rewrite rev_involutive, rev_app_distr in Ht. done. }
  exists l, (rev r). split_and!; [by rewrite <- Hmid | done | by apply blank_rev | | done].
  intros c t Hc. destruct (strip s) as [|c0 t0] eqn:E; [done|].
  injection Hc as -> ->. apply (Hh c (t ++ rev r)). by rewrite Hmid.
Qed.

Lemma nonempty_false s : nonempty s = false ↔ s = [].
Proof. by destruct s. Qed.

Lemma nonempty_true s : nonempty s = true ↔ s ≠ [].
Proof. by destruct s. Qed.

(** The test [not answer or not answer.strip()] is true exactly on
    blank strings. *)
Lemma blank_test s :
  negb (nonempty s) || negb (nonempty (strip s)) = true ↔ blank s.
Proof.
  rewrite orb_true_iff, !negb_true_iff, !nonempty_false, strip_nil.
  split; [intros [-> | H]; [apply blank_nil | done] | by right].
Qed.

Lemma not_blank_cons c s : isspace c = false → ¬ blank (c :: s).
Proof. intros Hc [Hc' _]%blank_cons. congruence. Qed.

(** A string with a character that is not white space is not blank;
    the test runs on literals. *)
Lemma not_blank_test s : forallb isspace s = false → ¬ blank s.
Proof.
  intros Hf Hb. induction Hb as [|c s Hc _ IH]; simpl in Hf; [done|].
  rewrite Hc in Hf. auto.
Qed.

Lemma startswith_spec p s : startswith p s = true ↔ ∃ post, s = p ++ post.
Proof.
  revert s. induction p as [|a p IH]; intros s; simpl.
  - split; [intros _; by exists s | done].
  - destruct s as [|b s].
    + split; [done | intros [post [=]]].
    + rewrite andb_true_iff, N.eqb_eq, IH. split.
      * intros [-> [post ->]]. by exists post.
      * intros [post [= -> ->]]. eauto.
Qed.

(** [needle in hay] decides the occurrence of [needle] in [hay]. *)
Lemma contains_spec k q : contains k q = true ↔ Substring k q.
Proof.
  unfold Substring. induction q as [|c q IH]; simpl.
  - rewrite orb_false_r, startswith_spec. split.
    + intros [post ->]. by exists [], post.
    + intros (pre & post & H). destruct pre; [by exists post | done].
  - rewrite orb_true_iff, startswith_spec, IH. split.
    + intros [[post ->] | (pre & post & ->)].
      * by exists [], post.
      * by exists (c :: pre), post.
    + intros (pre & post & H). destruct pre as [|c' pre].
      * left. by exists post.
      * right. injection H as -> ->. by exists pre, post.
Qed.

Lemma contains_false k q : contains k q = false ↔ ¬ Substring k q.
Proof. rewrite <- contains_spec. by destruct (contains k q). Qed.

(** ** The OCR context formatter *)

(** C10. [format_for_llm] returns [None] exactly when its input is
    [None], the empty string or a string of white space only; on every
    other string it returns the fixed explanatory template around the
    input with the white space at its two ends removed. *)
Theorem format_for_llm_none_iff_blank (ocr_text : option pystr) :
  (OCR.format_for_llm ocr_text = None ↔
     ocr_text = None ∨ ocr_text = Some [] ∨ ∃ s, ocr_text = Some s ∧ blank s) ∧
  (∀ s, ocr_text = Some s → ¬ blank s →
     ∃ t, stripped_of s t ∧ OCR.format_for_llm ocr_text = Some (ocr_template t)).
Proof.
  split.
  - destruct ocr_text as [s|]; simpl; [|naive_solver].
    destruct (nonempty s) eqn:Hs; simpl.
    + destruct (nonempty (strip s)) eqn:Ht; simpl.
      * split; [done|]. intros [? | [[= ->] | (s' & [= <-] & Hb)]]; [done..|].
        apply strip_nil, nonempty_false in Hb. congruence.
      * split; [|done]. intros _. right. right. exists s. split; [done|].
        by apply strip_nil, nonempty_false.
    + apply nonempty_false in Hs as ->. naive_solver.
  - intros s -> Hb. exists (strip s). split; [apply strip_split|].
    simpl. destruct (nonempty s) eqn:Hs; simpl.
    + destruct (nonempty (strip s)) eqn:Ht; simpl.
      * reflexivity.
      * apply nonempty_false, strip_nil in Ht. done.
    + apply nonempty_false in Hs as ->. destruct Hb. apply blank_nil.
Qed.

(** ** The query contract *)

Section QueryProperties.

Variable engine_query : QueryEngine → pystr → result pystr.
Variable llm_complete : pystr → result pystr.

Local Abbreviation query := (query engine_query llm_complete).

Lemma apology_not_blank : ¬ blank apology_message.
Proof. apply not_blank_test. vm_compute. reflexivity. Qed.

Lemma fallback_not_blank : ¬ blank fallback_message.
Proof. apply not_blank_test. vm_compute. reflexivity. Qed.

(** C2. In the indexed mode and in the direct-completion mode alike, an
    answer that is empty or white space only is replaced by the fixed
    fallback message; so the string [query] returns is never blank. *)
Theorem query_blank_answer_fallback
    (self : LLMModule) (question : pystr) (ocr_context : option pystr) :
  (∀ qe answer, query_engine self = Some qe →
     engine_query qe (_enhance_question question ocr_context) = Return answer →
     blank answer →
     query self question ocr_context = Return fallback_message) ∧
  (∀ answer, query_engine self = None →
     llm_complete (_enhance_question question ocr_context) = Return answer →
     blank answer →
     query self question ocr_context = Return fallback_message) ∧
  (∀ s, query self question ocr_context = Return s → s ≠ [] ∧ ¬ blank s).
Proof.
  assert (Hne : ∀ s : pystr, ¬ blank s → s ≠ [] ∧ ¬ blank s).
  { intros s Hs. split; [|done]. intros ->. apply Hs, blank_nil. }
  unfold LLM.query. split_and!.
  - intros qe answer -> -> Hb. simpl. apply blank_test in Hb. by rewrite Hb.
  - intros answer -> -> Hb. simpl. apply blank_test in Hb. by rewrite Hb.
  - intros s. destruct (match query_engine self with Some _ => _ | None => _ end) as [a|e]; simpl.
    + destruct (negb (nonempty a) || negb (nonempty (strip a))) eqn:Ht.
      * intros [= <-]. apply Hne, fallback_not_blank.
      * intros [= <-]. apply Hne. rewrite <- blank_test. congruence.
    + intros [= <-]. apply Hne, apology_not_blank.
Qed.

End QueryProperties.

(** ** [query] and the console *)

Section ConsoleProperties.

Variable stdout : pystr → option exn.
Variable message : exn → pystr.
Variable engine_query : QueryEngine → pystr → result pystr.
Variable llm_complete : pystr → result pystr.

Local Abbreviation print := (Console.print stdout).
Local Abbreviation query :=
  (Console.query stdout message engine_query llm_complete).

(** On a console that takes every line, the method computes what
    [LLM.query] says. *)
Lemma query_on_silent_console (self : LLMModule) question ocr_context :
  Console.query (λ _, None) message engine_query llm_complete self question ocr_context
  = LLM.query engine_query llm_complete self question ocr_context.
Proof.
  unfold Console.query, LLM.query, Console.print. cbv zeta.
  destruct ocr_context as [[|c ctx]|]; cbv [bind try_except];
    by destruct (match query_engine self with Some _ => _ | None => _ end).
Qed.

(** C1. Amended: when the console takes the lines [query] prints (the
    progress line with the first 50 characters of the question, the
    notice of an OCR context, and after a failure the line with the
    text of the exception), [query] returns a string whatever the
    question and the OCR context are; when the query engine (indexed
    mode) or the direct completion (no index) raises, the result is the
    fixed apology. *)
Theorem query_raises_only_from_console
    (self : LLMModule) (question : pystr) (ocr_context : option pystr) :
  print (Console.progress_line question) = Return () →
  (∀ c ctx, ocr_context = Some (c :: ctx) → print Console.context_line = Return ()) →
  (∀ e, match query_engine self with
        | Some qe => engine_query qe (_enhance_question question ocr_context)
        | None => llm_complete (_enhance_question question ocr_context)
        end = Raise e →
        print (Console.error_line message e) = Return ()) →
  (∃ answer, query self question ocr_context = Return answer) ∧
  (∀ qe e, query_engine self = Some qe →
     engine_query qe (_enhance_question question ocr_context) = Raise e →
     query self question ocr_context = Return apology_message) ∧
  (∀ e, query_engine self = None →
     llm_complete (_enhance_question question ocr_context) = Raise e →
     query self question ocr_context = Return apology_message).
Proof.
  intros Hprogress Hcontext Herror. unfold Console.query. cbv zeta.
  rewrite Hprogress. cbn [bind].
  assert (Hc : match ocr_context with
               | Some (_ :: _) => print Console.context_line
               | _ => Return ()
               end = Return ()).
  { destruct ocr_context as [[|c ctx]|]; [done| |done]. by eapply Hcontext. }
  rewrite Hc. cbn [bind]. split_and!.
  - destruct (match query_engine self with Some _ => _ | None => _ end) as [a|e];
      cbv [try_except bind]; [by eauto|].
    rewrite (Herror e eq_refl). by eauto.
  - intros qe e Hqe He. rewrite Hqe in Herror |- *.
    rewrite He. cbv [try_except bind]. by rewrite (Herror e He).
  - intros e Hqe He. rewrite Hqe in Herror |- *.
    rewrite He. cbv [try_except bind]. by rewrite (Herror e He).
Qed.

End ConsoleProperties.

(** A question with a lone surrogate on a UTF-8 console: the progress
    line cannot be printed, and the exception leaves [query] although
    no service has failed. *)
Lemma query_raises_on_lone_surrogate :
  Console.query Console.utf8_stdout Console.service_message
    Sample.failing_engine (λ prompt, Return prompt) Sample.fresh_module
    [55296] None
  = Raise UnicodeEncodeError ∧
  ¬ ∃ answer,
      Console.query Console.utf8_stdout Console.service_message
        Sample.failing_engine (λ prompt, Return prompt) Sample.fresh_module
        [55296] None
      = Return answer.
Proof.
  assert (H : Console.query Console.utf8_stdout Console.service_message
                Sample.failing_engine (λ prompt, Return prompt) Sample.fresh_module
                [55296] None
              = Raise UnicodeEncodeError) by (vm_compute; reflexivity).
  split; [exact H|]. intros [answer Ha]. rewrite H in Ha. discriminate Ha.
Qed.

(** A failing completion on a UTF-8 console, with an OCR context. *)
Lemma query_raises_only_from_console_witness :
  Console.query Console.utf8_stdout Console.service_message
    Sample.failing_engine Sample.failing_llm Sample.fresh_module
    (u "부작용은?") (Some (u "타이레놀"))
  = Return apology_message.
Proof.
  refine (proj2 (proj2 (query_raises_only_from_console Console.utf8_stdout
            Console.service_message Sample.failing_engine Sample.failing_llm
            Sample.fresh_module (u "부작용은?") (Some (u "타이레놀")) _ _ _))
            (ServiceError (u "timeout")) _ _).
  - vm_compute. reflexivity.
  - intros c ctx _. vm_compute. reflexivity.
  - intros e He. vm_compute in He. injection He as <-. vm_compute. reflexivity.
  - reflexivity.
  - reflexivity.
Defined.

(** ** The question enhancer *)

(** The prompt is the body followed by the instruction of the first
    category whose keyword test succeeds. *)
Lemma enhance_question_unfold question ocr_context :
  _enhance_question question ocr_context =
  prompt_body question ocr_context ++
  (if contains (u "부작용") question then side_effect_suffix
   else if contains (u "용법") question || contains (u "용량") question
        then dosage_suffix
   else if contains (u "상호작용") question || contains (u "같이") question
        then interaction_suffix
   else []).
Proof.
  unfold _enhance_question, prompt_body, side_effect_suffix, dosage_suffix,
    interaction_suffix.
  destruct ocr_context as [[|c ctx]|]; cbv zeta;
    repeat (match goal with |- context [if ?b then _ else _] => destruct b end);
    rewrite ?app_nil_r, ?app_nil_l, <- ?app_assoc; reflexivity.
Qed.

(** C4. At most one category instruction is appended, chosen by the
    first keyword test that succeeds on the raw question: side effect,
    else usage or dosage, else interaction or together, else none. A
    question with both a side-effect term and a dosage term gets the
    side-effect instruction only. *)
Theorem enhance_first_match_wins (question : pystr) (ocr_context : option pystr) :
  let body := prompt_body question ocr_context in
  let has k := Substring (u k) question in
  (has "부작용" →
     _enhance_question question ocr_context = body ++ side_effect_suffix) ∧
  (¬ has "부작용" → has "용법" ∨ has "용량" →
     _enhance_question question ocr_context = body ++ dosage_suffix) ∧
  (¬ has "부작용" → ¬ has "용법" → ¬ has "용량" → has "상호작용" ∨ has "같이" →
     _enhance_question question ocr_context = body ++ interaction_suffix) ∧
  (¬ has "부작용" → ¬ has "용법" → ¬ has "용량" → ¬ has "상호작용" → ¬ has "같이" →
     _enhance_question question ocr_context = body).
Proof.
  intros body has. unfold has, body. rewrite enhance_question_unfold.
  setoid_rewrite <- contains_spec.
  assert (Hor : ∀ a b : bool, a = true ∨ b = true → a || b = true).
  { intros a b. by rewrite orb_true_iff. }
  assert (Hnor : ∀ a b : bool, a ≠ true → b ≠ true → a || b = false).
  { intros [] [] ??; done. }
  split_and!.
  - intros ->. reflexivity.
  - intros H1%not_true_is_false H2%Hor. rewrite H1, H2. reflexivity.
  - intros H1%not_true_is_false H2 H3 H4%Hor.
    rewrite H1, (Hnor _ _ H2 H3), H4. reflexivity.
  - intros H1%not_true_is_false H2 H3 H4 H5.
    rewrite H1, (Hnor _ _ H2 H3), (Hnor _ _ H4 H5). apply app_nil_r.
Qed.

(** A question with both a side-effect term and a dosage term. *)
Lemma enhance_first_match_wins_witness :
  _enhance_question (u "타이레놀 부작용과 용법 알려줘") None =
  prompt_body (u "타이레놀 부작용과 용법 알려줘") None ++ side_effect_suffix.
Proof.
  refine (proj1 (enhance_first_match_wins (u "타이레놀 부작용과 용법 알려줘") None) _).
  apply contains_spec. vm_compute. reflexivity.
Defined.

(** ** The document formatter *)

Lemma truthy_get m key : truthy (get m key) = true ↔ has_text m key.
Proof.
  unfold get, has_text. destruct (m !! key) as [[|[|c s]]|]; simpl;
    split; try done; try (intros (s' & [=] & ?); subst; done).
  intros _. by exists (c :: s).
Qed.

Lemma truthy_get_false m key : truthy (get m key) = false ↔ ¬ has_text m key.
Proof. rewrite <- truthy_get. by destruct (truthy (get m key)). Qed.

(** The line appended for a key that holds text. *)
Lemma field_line_text m key label s :
  m !! key = Some (JStr s) → field_line m key label = label ++ u ": " ++ s.
Proof. unfold field_line, get. by intros ->. Qed.

Lemma first_text_cons m key keys :
  first_text m (key :: keys) =
  if truthy (get m key) then Some (format_value (get m key)) else first_text m keys.
Proof. unfold get. simpl. by destruct (m !! key) as [[|[|c s]]|]. Qed.

Lemma first_text_None m keys :
  first_text m keys = None ↔ ∀ key, key ∈ keys → ¬ has_text m key.
Proof.
  induction keys as [|key keys IH].
  - split; [intros _ key' Hin; by apply elem_of_nil in Hin | done].
  - rewrite first_text_cons. destruct (truthy (get m key)) eqn:Ht.
    + split; [done|]. intros H. apply truthy_get in Ht.
      destruct (H key); [left | done].
    + rewrite IH. apply truthy_get_false in Ht. split.
      * intros H key' [->|Hin]%elem_of_cons; auto.
      * intros H key' Hin. apply H. by right.
Qed.

(** The text found is that of the first key holding text. *)
Lemma first_text_Some m keys v :
  first_text m keys = Some v →
  ∃ before key after, keys = before ++ key :: after ∧
    (∀ k, k ∈ before → ¬ has_text m k) ∧ m !! key = Some (JStr v) ∧ v ≠ [].
Proof.
  induction keys as [|key keys IH]; [done|].
  rewrite first_text_cons. destruct (truthy (get m key)) eqn:Ht.
  - intros [= <-]. exists [], key, keys. apply truthy_get in Ht as (s & Hs & Hne).
    unfold get. rewrite Hs. simpl. split_and!; [done | | done | done].
    intros k Hk. by apply elem_of_nil in Hk.
  - intros (before & k & after & -> & Hb & Hk & Hv)%IH.
    exists (key :: before), k, after. split_and!; [done | | done | done].
    intros k' [->|Hin]%elem_of_cons; [by apply truthy_get_false | auto].
Qed.

(** The inner loop over candidate keys appends the line of the field,
    if it has one. *)
Lemma candidates_loop_spec m field_names label text_parts :
  candidates_loop m field_names label text_parts =
  text_parts ++ option_list (line_of m (field_names, label)).
Proof.
  unfold line_of. cbn [fst snd].
  induction field_names as [|field field_names IH]; cbn [candidates_loop].
  - simpl. by rewrite app_nil_r.
  - rewrite first_text_cons. destruct (truthy (get m field)); [done | apply IH].
Qed.

Lemma permit_loop_spec m fields text_parts :
  permit_loop m fields text_parts =
  text_parts ++ omap (line_of m) (map (λ fl, ([fl.1], fl.2)) fields).
Proof.
  revert text_parts. induction fields as [|[field label] fields IH]; intros text_parts.
  - simpl. by rewrite app_nil_r.
  - cbn [permit_loop map omap list_omap]. unfold line_of at 1. cbn [fst snd].
    rewrite first_text_cons. cbn [first_text].
    destruct (truthy (get m field)); rewrite IH; [|done].
    cbn [fmap option_fmap option_map]. by rewrite <- app_assoc.
Qed.

Lemma overview_loop_spec m fields text_parts :
  overview_loop m fields text_parts = text_parts ++ omap (line_of m) fields.
Proof.
  revert text_parts. induction fields as [|[field_names label] fields IH]; intros text_parts.
  - simpl. by rewrite app_nil_r.
  - cbn [overview_loop omap list_omap]. rewrite IH, candidates_loop_spec, <- app_assoc.
    by destruct (line_of m (field_names, label)).
Qed.

(** The formatter joins the expected lines, and returns [None] when
    there is none. *)
Lemma format_lines m source_type :
  _format_medicine_data m source_type =
  match expected_lines m source_type with
  | [] => None
  | _ :: _ => Some (join nl (expected_lines m source_type))
  end.
Proof.
  unfold _format_medicine_data, expected_lines, schema.
  destruct (decide (source_type = u "permit")).
  - by rewrite permit_loop_spec.
  - by rewrite overview_loop_spec.
Qed.

Lemma omap_nil {A B} (f : A → option B) (l : list A) :
  omap f l = [] ↔ ∀ x, x ∈ l → f x = None.
Proof.
  induction l as [|x l IH]; simpl.
  - split; [intros _ ? Hin; by apply elem_of_nil in Hin | done].
  - destruct (f x) eqn:Hx.
    + split; [done|]. intros H. rewrite H in Hx; [done | left].
    + rewrite IH. split.
      * intros H y [->|Hin]%elem_of_cons; auto.
      * intros H y Hin. apply H. by right.
Qed.

Lemma line_of_None m fld : line_of m fld = None ↔ ¬ field_nonempty m fld.1.
Proof.
  unfold line_of, field_nonempty. rewrite fmap_None, first_text_None.
  split; [intros H (key & Hin & Ht); by apply (H key) | intros H key Hin Ht; eauto].
Qed.

Lemma elem_of_concat_map {A B} (f : A → list B) (l : list A) (y : B) :
  y ∈ concat (map f l) ↔ ∃ x, x ∈ l ∧ y ∈ f x.
Proof.
  induction l as [|x l IH]; simpl.
  - split; [intros Hin; by apply elem_of_nil in Hin|].
    intros (x & Hin & _). by apply elem_of_nil in Hin.
  - rewrite elem_of_app, IH. split.
    + intros [Hy | (x' & Hin & Hy)]; [exists x; split; [left | done]|].
      exists x'. split; [by right | done].
    + intros (x' & [->|Hin]%elem_of_cons & Hy); [by left | right; eauto].
Qed.

Lemma expected_lines_nil m source_type :
  expected_lines m source_type = [] ↔
  ∀ key, key ∈ recognized_keys source_type → ¬ has_text m key.
Proof.
  unfold expected_lines, recognized_keys. rewrite omap_nil. split.
  - intros H key (fld & Hfld & Hkey)%elem_of_concat_map Ht.
    apply H, line_of_None in Hfld. apply Hfld. by exists key.
  - intros H fld Hfld. apply line_of_None. intros (key & Hkey & Ht).
    apply (H key); [|done]. apply elem_of_concat_map. eauto.
Qed.

Lemma overview_ne_permit : u "overview" ≠ u "permit".
Proof. intros H. vm_compute in H. discriminate H. Qed.

Lemma line_of_Some m fld line :
  line_of m fld = Some line →
  ∃ key s, key ∈ fld.1 ∧ m !! key = Some (JStr s) ∧ s ≠ [] ∧
           line = fld.2 ++ u ": " ++ s.
Proof.
  unfold line_of. intros (v & Hv & ->)%fmap_Some.
  apply first_text_Some in Hv as (before & key & after & Hk & _ & Hm & Hne).
  exists key, v. split_and!; [|done..]. rewrite Hk, elem_of_app. right. left.
Qed.

Lemma line_of_nonempty m fld :
  field_nonempty m fld.1 → is_Some (line_of m fld).
Proof.
  intros H. destruct (line_of m fld) eqn:E; [by eexists|].
  by apply line_of_None in E.
Qed.

Lemma join_nonempty sep (l : pystr) ls : l ≠ [] → join sep (l :: ls) ≠ [].
Proof. destruct l; [done|]. by destruct ls. Qed.

Lemma expected_lines_texts m source_type :
  Forall (λ line, line ≠ []) (expected_lines m source_type).
Proof.
  unfold expected_lines. apply Forall_forall. intros line Hin.
  apply list_elem_of_omap in Hin as (fld & _ & Hl).
  apply line_of_Some in Hl as (key & v & _ & _ & Hne & ->).
  intros (_ & (_ & ->)%app_eq_nil)%app_eq_nil. done.
Qed.

(** A formatted text is never the empty string. *)
Lemma format_Some_nonempty m source_type t :
  _format_medicine_data m source_type = Some t → t ≠ [].
Proof.
  rewrite format_lines. pose proof (expected_lines_texts m source_type) as Hf.
  destruct (expected_lines m source_type) as [|l ls]; [done|].
  intros Ht%(inj Some). rewrite <- Ht. apply join_nonempty.
  by apply Forall_cons in Hf as [? _].
Qed.

Lemma text_true_format m source_type :
  text_true (_format_medicine_data m source_type) =
  bool_decide (_format_medicine_data m source_type ≠ None).
Proof.
  destruct (_format_medicine_data m source_type) as [t|] eqn:E; [|done].
  apply format_Some_nonempty in E. by destruct t.
Qed.

Lemma document_text_nonempty m doc :
  permit_document m = Return (Some doc) ∨ overview_document m = Return (Some doc) →
  text doc ≠ [].
Proof.
  intros [H|H]; revert H.
  - unfold permit_document.
    destruct (_format_medicine_data m (u "permit")) as [t|] eqn:E; [|done].
    apply format_Some_nonempty in E. destruct t as [|c t]; [done|].
    cbn [text_true nonempty]. destruct (slice_to _ _); [|done]. by intros [= <-].
  - unfold overview_document.
    destruct (_format_medicine_data m (u "overview")) as [t|] eqn:E; [|done].
    apply format_Some_nonempty in E. destruct t as [|c t]; [done|].
    cbn [text_true nonempty]. destruct (slice_to _ _); [|done]. by intros [= <-].
Qed.

(** What holds of the documents a loop starts with, and of every
    document its body makes, holds of the documents it ends with. *)
Lemma ingest_Forall (P : Document → Prop) body medicines docs :
  (∀ m doc, body m = Return (Some doc) → P doc) →
  Forall P docs → Forall P (ingest body medicines docs).1.
Proof.
  intros Hbody. revert docs.
  induction medicines as [|m medicines IH]; intros docs Hdocs; [done|].
  cbn [ingest]. destruct (body m) as [[doc|]|e] eqn:E; [|by apply IH|done].
  apply IH. apply Forall_app. split; [done|]. apply Forall_singleton. eauto.
Qed.

(** A block of [_load_data] never raises: it returns the documents it
    was given, or those its loop left. *)
Lemma load_source_returns path body docs st :
  ∃ docs' st', load_source path body docs st = (Return docs', st') ∧
    (docs' = docs ∨ ∃ medicines, docs' = (ingest body medicines docs).1).
Proof.
  unfold load_source, io_bind, io_try, path_exists, read_medicines, io_ret.
  unfold record_event. cbn [fs log].
  destruct (fs st !! path) as [[[l|]|stored]|] eqn:E.
  - rewrite bool_decide_eq_true_2 by eauto. cbn [fs]. rewrite E.
    eexists _, _. split; [|right; by exists l].
    by destruct (ingest body l docs) as [d [[]|e]].
  - rewrite bool_decide_eq_true_2 by eauto. cbn [fs]. rewrite E. eauto 10.
  - rewrite bool_decide_eq_true_2 by eauto. cbn [fs]. rewrite E. eauto 10.
  - rewrite bool_decide_eq_false_2 by (by intros [? ?]). eauto 10.
Qed.

Lemma load_data_returns self st :
  ∃ docs st', _load_data self st = (Return docs, st') ∧
              Forall (λ doc, text doc ≠ []) docs.
Proof.
  unfold _load_data, io_bind.
  destruct (load_source_returns (e_data_path self) permit_document [] st)
    as (d1 & st1 & -> & H1).
  destruct (load_source_returns (n_data_path self) overview_document d1 st1)
    as (d2 & st2 & -> & H2).
  exists d2, st2. split; [done|].
  assert (F1 : Forall (λ doc, text doc ≠ []) d1).
  { destruct H1 as [->|(l & ->)]; [done|].
    apply ingest_Forall; [|done]. intros m doc Hd.
    apply (document_text_nonempty m). by left. }
  destruct H2 as [->|(l & ->)]; [done|].
  apply ingest_Forall; [|done]. intros m doc Hd.
  apply (document_text_nonempty m). by right.
Qed.

Lemma format_none_iff_no_text_aux m source_type :
  _format_medicine_data m source_type = None ↔
  ∀ key, key ∈ recognized_keys source_type → ¬ has_text m key.
Proof.
  rewrite <- expected_lines_nil, format_lines.
  by destruct (expected_lines m source_type).
Qed.

(** C5. For either schema, the formatter returns [None] exactly when no
    recognized key of the record holds text; the loops of the index
    builder then append nothing for the record and go on, and a
    document that is created never has an empty text, so that
    [_load_data] returns documents with a text only. *)
Theorem format_none_iff_no_text (m : medicine) (source_type : pystr) :
  (_format_medicine_data m source_type = None ↔
     ∀ key, key ∈ recognized_keys source_type → ¬ has_text m key) ∧
  (_format_medicine_data m (u "permit") = None →
     permit_document m = Return None ∧
     ∀ rest docs, ingest permit_document (m :: rest) docs
                  = ingest permit_document rest docs) ∧
  (_format_medicine_data m (u "overview") = None →
     overview_document m = Return None ∧
     ∀ rest docs, ingest overview_document (m :: rest) docs
                  = ingest overview_document rest docs) ∧
  (∀ doc, permit_document m = Return (Some doc) ∨
          overview_document m = Return (Some doc) → text doc ≠ []) ∧
  (∀ self st, ∃ docs st',
     _load_data self st = (Return docs, st') ∧
     Forall (λ doc, text doc ≠ []) docs).
Proof.
  split_and!; [| | | | apply load_data_returns].
  - apply format_none_iff_no_text_aux.
  - intros H. assert (Hd : permit_document m = Return None).
    { unfold permit_document. by rewrite H. }
    split; [done|]. intros rest docs. cbn [ingest]. by rewrite Hd.
  - intros H. assert (Hd : overview_document m = Return None).
    { unfold overview_document. by rewrite H. }
    split; [done|]. intros rest docs. cbn [ingest]. by rewrite Hd.
  - intros doc. apply document_text_nonempty.
Qed.

(** C6. For a record with a non-empty field, the text is the join by
    line feeds of one ["label: value"] line per non-empty field, in the
    order of the schema, and of no line for the other fields. *)
Theorem format_one_line_per_field (m : medicine) (source_type : pystr) :
  (∃ fld, fld ∈ schema source_type ∧ field_nonempty m fld.1) →
  _format_medicine_data m source_type
    = Some (join nl (omap (line_of m) (schema source_type))) ∧
  ∀ fld, fld ∈ schema source_type →
    (field_nonempty m fld.1 →
       ∃ key s, key ∈ fld.1 ∧ m !! key = Some (JStr s) ∧ s ≠ [] ∧
                line_of m fld = Some (fld.2 ++ u ": " ++ s)) ∧
    (¬ field_nonempty m fld.1 → line_of m fld = None).
Proof.
  intros (fld & Hfld & Hne). split.
  - rewrite format_lines. fold (expected_lines m source_type).
    destruct (expected_lines m source_type) eqn:E; [|done].
    unfold expected_lines in E. rewrite omap_nil in E.
    apply E, line_of_None in Hfld. done.
  - intros fld' _. split; [|by intros ?%line_of_None].
    intros [line Hl]%line_of_nonempty.
    destruct (line_of_Some _ _ _ Hl) as (key & s & ? & ? & ? & ->). eauto 10.
Qed.

Lemma permit_schema : schema (u "permit") = map (λ fl, ([fl.1], fl.2)) permit_fields.
Proof. unfold schema. by rewrite decide_True by reflexivity. Qed.

Lemma overview_schema : schema (u "overview") = overview_fields.
Proof. unfold schema. by rewrite decide_False by apply overview_ne_permit. Qed.

Lemma literal_nonempty (s : pystr) : nonempty s = true → s ≠ [].
Proof. by destruct s. Qed.

(** The permit record of Tylenol: a name, a usage text, an empty
    side-effect text. *)
Lemma format_one_line_per_field_witness :
  (∃ fld, fld ∈ schema (u "permit") ∧ field_nonempty Sample.tylenol fld.1) ∧
  _format_medicine_data Sample.tylenol (u "permit")
    = Some (join nl (omap (line_of Sample.tylenol) (schema (u "permit")))).
Proof.
  assert (H : ∃ fld, fld ∈ schema (u "permit") ∧ field_nonempty Sample.tylenol fld.1).
  { exists ([u "itemName"], u "의약품명"). split.
    - rewrite permit_schema. unfold permit_fields. cbn [map fst snd]. left.
    - exists (u "itemName"). split; [left|]. exists (u "타이레놀").
      split; [vm_compute; reflexivity | apply literal_nonempty; vm_compute; reflexivity]. }
  split; [exact H | exact (proj1 (format_one_line_per_field _ _ H))].
Defined.

Example format_tylenol :
  _format_medicine_data Sample.tylenol (u "permit")
  = Some (u "의약품명: 타이레놀" ++ nl ++ u "용법용량: 1회 1정").
Proof. vm_compute. reflexivity. Qed.

Example format_all_empty :
  _format_medicine_data Sample.all_empty (u "permit") = None ∧
  _format_medicine_data Sample.all_empty (u "overview") = None.
Proof. split; vm_compute; reflexivity. Qed.

(** ** Candidate keys of the overview schema *)

(** Every field of the overview schema has two candidate keys, the
    lower-case one first, then the same key in upper case. *)
Lemma overview_fields_casing :
  Forall (λ fld, ∃ lower, fld.1 = [lower; ascii_upper lower] ∧
                          lower ≠ ascii_upper lower) overview_fields.
Proof.
  unfold overview_fields.
  repeat (apply Forall_cons; split;
    [ cbn [fst];
      lazymatch goal with |- ∃ _, [?a; _] = _ ∧ _ => exists a end;
      split; [vm_compute; reflexivity | intros H; vm_compute in H; discriminate H]
    | ]).
  by apply Forall_nil.
Qed.

(** The inner loop on the two candidate keys of a field: the lower-case
    value when it is there, the upper-case value when only that one is,
    and nothing when neither is. *)
Lemma candidates_loop_first_wins
    (m : medicine) (field_names : list pystr) (label : pystr)
    (text_parts : list pystr) :
  (field_names, label) ∈ overview_fields →
  ∃ lower, field_names = [lower; ascii_upper lower] ∧
    (∀ a, m !! lower = Some (JStr a) → a ≠ [] →
       candidates_loop m field_names label text_parts
       = text_parts ++ [label ++ u ": " ++ a]) ∧
    (¬ has_text m lower →
       ∀ b, m !! ascii_upper lower = Some (JStr b) → b ≠ [] →
       candidates_loop m field_names label text_parts
       = text_parts ++ [label ++ u ": " ++ b]) ∧
    (¬ has_text m lower → ¬ has_text m (ascii_upper lower) →
       candidates_loop m field_names label text_parts = text_parts).
Proof.
  intros Hin. pose proof overview_fields_casing as Hc.
  rewrite Forall_forall in Hc. destruct (Hc _ Hin) as (lower & Hn & _).
  cbn [fst] in Hn. subst field_names. exists lower. split; [done|].
  cbn [candidates_loop]. split_and!.
  - intros a Ha Hne.
    assert (Ht : truthy (get m lower) = true) by (apply truthy_get; by exists a).
    by rewrite Ht, (field_line_text _ _ _ _ Ha).
  - intros Hl%truthy_get_false b Hb Hne.
    assert (Ht : truthy (get m (ascii_upper lower)) = true)
      by (apply truthy_get; by exists b).
    by rewrite Hl, Ht, (field_line_text _ _ _ _ Hb).
  - intros Hl%truthy_get_false Hu%truthy_get_false. by rewrite Hl, Hu.
Qed.

(** The formatter on the overview table split at one of its fields. *)
Lemma format_overview_split m before after field_names label :
  overview_fields = before ++ (field_names, label) :: after →
  _format_medicine_data m (u "overview")
  = match overview_loop m before []
          ++ candidates_loop m field_names label []
          ++ overview_loop m after [] with
    | [] => None
    | l => Some (join nl l)
    end.
Proof.
  intros Hsplit. unfold _format_medicine_data. cbv zeta.
  rewrite decide_False by apply overview_ne_permit.
  rewrite Hsplit, !overview_loop_spec, candidates_loop_spec, omap_app.
  cbn [app omap list_omap].
  destruct (line_of m (field_names, label)) as [line|].
  - change (option_list (Some line)) with [line]. cbn [app].
    by destruct (omap (line_of m) before).
  - change (option_list (@None pystr)) with (@nil pystr). cbn [app].
    by destruct (omap (line_of m) before ++ omap (line_of m) after).
Qed.

(** C7. In the overview schema the formatter tries the two candidate
    keys of a field, lower case then upper case, and renders the first
    one holding text: between the lines of the fields before and those
    of the fields after, the text has one line with the lower-case
    value when that one is there (also when both are), one line with
    the upper-case value when only that one is, and no line when
    neither is. *)
Theorem overview_first_candidate_wins
    (m : medicine) (before after : list (list pystr * pystr))
    (field_names : list pystr) (label : pystr) :
  overview_fields = before ++ (field_names, label) :: after →
  ∃ lower, field_names = [lower; ascii_upper lower] ∧
    (∀ a, m !! lower = Some (JStr a) → a ≠ [] →
       _format_medicine_data m (u "overview")
       = Some (join nl (overview_loop m before []
                        ++ [label ++ u ": " ++ a]
                        ++ overview_loop m after []))) ∧
    (¬ has_text m lower →
       ∀ b, m !! ascii_upper lower = Some (JStr b) → b ≠ [] →
       _format_medicine_data m (u "overview")
       = Some (join nl (overview_loop m before []
                        ++ [label ++ u ": " ++ b]
                        ++ overview_loop m after []))) ∧
    (¬ has_text m lower → ¬ has_text m (ascii_upper lower) →
       _format_medicine_data m (u "overview")
       = match overview_loop m before [] ++ overview_loop m after [] with
         | [] => None
         | l => Some (join nl l)
         end).
Proof.
  intros Hsplit.
  assert (Hin : (field_names, label) ∈ overview_fields).
  { rewrite Hsplit. apply elem_of_app. right. left. }
  destruct (candidates_loop_first_wins m field_names label [] Hin)
    as (lower & Hn & Hlower & Hupper & Hnone).
  exists lower. split; [done|].
  rewrite (format_overview_split m before after field_names label Hsplit).
  assert (Hline : ∀ line, match overview_loop m before [] ++ [line]
                                ++ overview_loop m after [] with
                          | [] => None
                          | l => Some (join nl l)
                          end
                          = Some (join nl (overview_loop m before [] ++ [line]
                                           ++ overview_loop m after []))).
  { intros line. by destruct (overview_loop m before []). }
  split_and!.
  - intros a Ha Hne. rewrite (Hlower a Ha Hne). cbn [app]. apply Hline.
  - intros Hl b Hb Hne. rewrite (Hupper Hl b Hb Hne). cbn [app]. apply Hline.
  - intros Hl Hu. by rewrite (Hnone Hl Hu).
Qed.

(** A record with both casings of the name: the lower-case value is
    the one rendered, on one line. *)
Lemma overview_first_candidate_wins_witness :
  _format_medicine_data Sample.both_casings (u "overview")
  = Some (u "의약품명: 타이레놀").
Proof.
  assert (Hsplit : overview_fields
                   = [] ++ ([u "item_name"; u "ITEM_NAME"], u "의약품명")
                        :: tail overview_fields) by reflexivity.
  destruct (overview_first_candidate_wins Sample.both_casings [] (tail overview_fields)
              [u "item_name"; u "ITEM_NAME"] (u "의약품명") Hsplit)
    as (lower & Heq & Hlower & _).
  injection Heq as <- _.
  rewrite (Hlower (u "타이레놀")).
  - vm_compute. reflexivity.
  - vm_compute. reflexivity.
  - apply literal_nonempty. vm_compute. reflexivity.
Defined.

(** ** Loading the source files *)

Lemma ingest_app body pre l docs :
  ingest body (pre ++ l) docs =
  match ingest body pre docs with
  | (docs', Return _) => ingest body l docs'
  | (docs', Raise e) => (docs', Raise e)
  end.
Proof.
  revert docs. induction pre as [|m pre IH]; intros docs; [done|].
  cbn [app ingest]. destruct (body m) as [[doc|]|e]; [apply IH | apply IH | done].
Qed.

(** The loop only appends. *)
Lemma ingest_prefix body medicines docs :
  docs `prefix_of` (ingest body medicines docs).1.
Proof.
  revert docs. induction medicines as [|m medicines IH]; intros docs; [done|].
  cbn [ingest]. destruct (body m) as [[doc|]|e]; [|apply IH|done].
  etrans; [|apply IH]. by apply prefix_app_r.
Qed.

(** A permit record that has a line but a null name makes the metadata
    slice fail. *)
Lemma permit_document_null_name m :
  m !! u "itemName" = Some JNull →
  _format_medicine_data m (u "permit") ≠ None →
  permit_document m = Raise TypeError.
Proof.
  intros Hname Hfmt. unfold permit_document.
  rewrite text_true_format, bool_decide_eq_true_2 by done.
  unfold get_or. by rewrite Hname.
Qed.

(** Reading an existing file that parses: the two calls on the world,
    then the loop; an exception of the loop is swallowed and what was
    appended before it is returned. *)
Lemma load_source_parsed path body docs st medicines :
  fs st !! path = Some (File (Some medicines)) →
  load_source path body docs st =
  (Return (ingest body medicines docs).1,
   {| fs := fs st; log := log st ++ [PathExists path; OpenRead path] |}).
Proof.
  intros Hfs. unfold load_source, io_bind, io_try, path_exists, read_medicines, io_ret.
  cbn [fs record_event log]. rewrite Hfs.
  rewrite bool_decide_eq_true_2 by eauto.
  unfold record_event. cbn [fs log]. rewrite Hfs, <- app_assoc.
  by destruct (ingest body medicines docs) as [d [[]|e]].
Qed.

(** C9. In the permit file, a record whose ["itemName"] is null while
    one of its recognized fields holds text raises a [TypeError] when
    its metadata is built; the handler of the file catches it, so the
    records after it give no document, and the documents of the records
    before it are kept. *)
Theorem permit_null_item_name_skips_rest
    (m : medicine) (pre rest : list medicine) (docs docs' : list Document)
    (path : pystr) (st : state) :
  m !! u "itemName" = Some JNull →
  (∃ key, key ∈ recognized_keys (u "permit") ∧ has_text m key) →
  ingest permit_document pre docs = (docs', Return tt) →
  fs st !! path = Some (File (Some (pre ++ m :: rest))) →
  permit_document m = Raise TypeError ∧
  ingest permit_document (pre ++ m :: rest) docs = (docs', Raise TypeError) ∧
  docs `prefix_of` docs' ∧
  load_source path permit_document docs st
  = (Return docs',
     {| fs := fs st; log := log st ++ [PathExists path; OpenRead path] |}).
Proof.
  intros Hname (key & Hkey & Htext) Hpre Hfs.
  assert (Hfmt : _format_medicine_data m (u "permit") ≠ None).
  { intros Hnone. rewrite format_none_iff_no_text_aux in Hnone.
    by apply (Hnone key). }
  assert (Hm : permit_document m = Raise TypeError)
    by by apply permit_document_null_name.
  assert (Hall : ingest permit_document (pre ++ m :: rest) docs = (docs', Raise TypeError)).
  { rewrite ingest_app, Hpre. cbn [ingest]. by rewrite Hm. }
  split_and!; [done | done | |].
  - pose proof (ingest_prefix permit_document pre docs) as Hp. by rewrite Hpre in Hp.
  - rewrite (load_source_parsed _ _ _ _ _ Hfs). by rewrite Hall.
Qed.

(** A permit file of three records, the second with a null name: the
    first record's document is kept, the third record gives none. *)
Lemma permit_null_item_name_skips_rest_witness :
  Sample.null_name !! u "itemName" = Some JNull ∧
  load_source (u "e_data.json") permit_document [] Sample.null_name_world
  = (Return [Sample.tylenol_document],
     {| fs := fs Sample.null_name_world;
        log := [PathExists (u "e_data.json"); OpenRead (u "e_data.json")] |}).
Proof.
  assert (Hname : Sample.null_name !! u "itemName" = Some JNull)
    by (vm_compute; reflexivity).
  split; [exact Hname|].
  refine (proj2 (proj2 (proj2 (permit_null_item_name_skips_rest
    Sample.null_name [Sample.tylenol] [Sample.tylenol] [] [Sample.tylenol_document]
    (u "e_data.json") Sample.null_name_world Hname _ _ _)))).
  - exists (u "entpName"). split.
    + unfold recognized_keys. rewrite permit_schema. unfold permit_fields.
      cbn [map fst snd concat app]. apply list_elem_of_further, list_elem_of_here.
    + exists (u "한미약품").
      split; [vm_compute; reflexivity | apply literal_nonempty; vm_compute; reflexivity].
  - vm_compute. reflexivity.
  - vm_compute. reflexivity.
Defined.

(** ** Building or loading the index *)

Section BuildProperties.

Variable embed : list Document → option exn.
Variable persist_failure : Index → option (exn * option node).

(** C8. When the index directory exists, [_build_index] asks whether it
    exists and loads it, and calls the world for nothing else: no source
    file is looked for, opened or parsed, and no index is built or
    persisted; the outcome depends on the directory only, not on what
    the source files hold. *)
Theorem build_index_reuses_persisted (self : LLMModule) (st : state) :
  is_Some (fs st !! index_path) →
  ∃ r new,
    _build_index embed persist_failure self st = (r, {| fs := fs st; log := log st ++ new |}) ∧
    new = [PathExists index_path; LoadIndex index_path] ∧
    (∀ path, OpenRead path ∉ new) ∧
    (∀ idx, fs st !! index_path = Some (Dir (Some idx)) →
       ∃ self', r = Return self' ∧ index self' = Some idx ∧
                is_Some (query_engine self')) ∧
    (∀ st2, fs st2 !! index_path = fs st !! index_path →
       _build_index embed persist_failure self st2
       = (r, {| fs := fs st2; log := log st2 ++ new |})).
Proof.
  intros Hex.
  assert (Hrun : ∀ s, fs s !! index_path = fs st !! index_path →
            _build_index embed persist_failure self s =
            (match fs st !! index_path with
             | Some (Dir (Some idx)) => Return (finish_build (set_index self (Some idx)))
             | _ => Raise StorageError
             end,
             {| fs := fs s;
                log := log s ++ [PathExists index_path; LoadIndex index_path] |})).
  { intros s Hs. unfold _build_index, io_bind, path_exists, load_index_from_storage, io_ret.
    rewrite bool_decide_eq_true_2 by (by rewrite Hs).
    unfold record_event. cbn [fs log]. rewrite Hs, <- app_assoc.
    by destruct (fs st !! index_path) as [[?|[idx|]]|]. }
  eexists _, _. split_and!; [by apply Hrun | done | | | by apply Hrun].
  - intros path. rewrite !elem_of_cons, elem_of_nil. intros [?|[?|[]]]; discriminate.
  - intros idx ->. eexists. split; [done|]. cbn. split; [done | by eexists].
Qed.

End BuildProperties.

(** An index persisted by an earlier run, and a permit file that has
    changed since: the file is not touched. *)
Lemma build_index_reuses_persisted_witness :
  is_Some (fs Sample.persisted_world !! index_path) ∧
  ∃ self', _build_index (λ _, None) (λ _, None) Sample.fresh_module Sample.persisted_world
           = (Return self',
              {| fs := fs Sample.persisted_world;
                 log := [PathExists index_path; LoadIndex index_path] |}) ∧
           index self' = Some {| indexed := [Sample.tylenol_document] |}.
Proof.
  assert (Hdir : fs Sample.persisted_world !! index_path
                 = Some (Dir (Some {| indexed := [Sample.tylenol_document] |})))
    by (vm_compute; reflexivity).
  assert (Hex : is_Some (fs Sample.persisted_world !! index_path))
    by (rewrite Hdir; eexists; reflexivity).
  split; [exact Hex|].
  destruct (build_index_reuses_persisted (λ _, None) (λ _, None) Sample.fresh_module
              Sample.persisted_world Hex) as (r & new & Hrun & -> & _ & Hload & _).
  destruct (Hload _ Hdir) as (self' & -> & Hidx & _).
  exists self'. split; [exact Hrun | exact Hidx].
Defined.

Lemma load_source_missing path body docs st :
  fs st !! path = None →
  load_source path body docs st = (Return docs, record_event (PathExists path) st).
Proof.
  intros Hp. unfold load_source, io_bind, path_exists, io_ret.
  by rewrite bool_decide_eq_false_2 by (rewrite Hp; by intros [? ?]).
Qed.

(** Without index directory and without source files the module is
    left as it was: no index, no query engine, so that [query] uses the
    direct completion. *)
Lemma build_index_no_sources (embed : list Document → option exn)
    (persist_failure : Index → option (exn * option node))
    (self : LLMModule) (st : state) :
  fs st !! index_path = None →
  fs st !! e_data_path self = None →
  fs st !! n_data_path self = None →
  (_build_index embed persist_failure self st).1 = Return self.
Proof.
  intros Hi He Hn. unfold _build_index, io_bind at 1, path_exists.
  rewrite bool_decide_eq_false_2 by (rewrite Hi; by intros [? ?]).
  unfold _load_data, io_bind, io_ret.
  rewrite load_source_missing by done.
  by rewrite load_source_missing by done.
Qed.

(** The settings the program gives the retrieval library. *)
Lemma setup_query_engine_settings (self : LLMModule) :
  ∃ qe, query_engine (_setup_query_engine self) = Some qe ∧
        retriever_index qe = index self ∧
        similarity_top_k qe = 10 ∧
        response_mode qe = u "tree_summarize" ∧
        similarity_cutoff qe = (3 # 10)%Q.
Proof. eexists. split; [reflexivity|]. by split_and!. Qed.

(** ** Runs on sample inputs *)

Example query_service_failure :
  query Sample.failing_engine Sample.failing_llm Sample.fresh_module
    (u "부작용이 뭐야") None
  = Return apology_message.
Proof. vm_compute. reflexivity. Qed.

Example query_blank_answer :
  query Sample.failing_engine Sample.blank_llm Sample.fresh_module
    (u "부작용이 뭐야") None
  = Return fallback_message.
Proof. vm_compute. reflexivity. Qed.

Example format_for_llm_white_space :
  OCR.format_for_llm (Some [32; 9; 10; 12288]) = None.
Proof. vm_compute. reflexivity. Qed.

Example format_for_llm_text :
  OCR.format_for_llm (Some (u "  타이레놀 500mg ")) = Some (ocr_template (u "타이레놀 500mg")).
Proof. vm_compute. reflexivity. Qed.

Example load_data_null_name :
  (_load_data Sample.fresh_module Sample.null_name_world).1
  = Return [Sample.tylenol_document].
Proof. vm_compute. reflexivity. Qed.

Example build_index_empty_world :
  (_build_index (λ _, None) (λ _, None) Sample.fresh_module Sample.empty_world).1
  = Return Sample.fresh_module.
Proof. vm_compute. reflexivity. Qed.

(** * Further properties of [llm_module.py] *)

(** ** The loader *)

(** The loop adds to the list it is given what it adds to the empty
    list, and ends the same way. *)
Lemma ingest_acc body medicines docs :
  ingest body medicines docs =
  (docs ++ (ingest body medicines []).1, (ingest body medicines []).2).
Proof.
  revert docs. induction medicines as [|m medicines IH]; intros docs.
  - cbn [ingest fst snd]. by rewrite app_nil_r.
  - cbn [ingest]. destruct (body m) as [[doc|]|e].
    + rewrite (IH (docs ++ [doc])), (IH ([] ++ [doc])). cbn [fst snd app].
      by rewrite <- app_assoc.
    + apply IH.
    + cbn [fst snd]. by rewrite app_nil_r.
Qed.

Lemma load_source_run path body docs st :
  load_source path body docs st =
  (Return (docs ++ file_documents body (fs st !! path)),
   {| fs := fs st; log := log st ++ file_events path (fs st !! path) |}).
Proof.
  unfold load_source, io_bind, io_try, path_exists, read_medicines, io_ret.
  unfold record_event. cbn [fs log].
  destruct (fs st !! path) as [[[l|]|stored]|] eqn:E; cbn [file_documents file_events].
  - rewrite bool_decide_eq_true_2 by eauto. cbn [fs log]. rewrite E, <- app_assoc.
    rewrite (ingest_acc body l docs).
    by destruct (ingest body l []) as [d [[]|e]].
  - rewrite bool_decide_eq_true_2 by eauto. cbn [fs log]. rewrite E, <- app_assoc.
    by rewrite app_nil_r.
  - rewrite bool_decide_eq_true_2 by eauto. cbn [fs log]. rewrite E, <- app_assoc.
    by rewrite app_nil_r.
  - rewrite bool_decide_eq_false_2 by (by intros [? ?]). by rewrite app_nil_r.
Qed.

Lemma load_data_run self st :
  _load_data self st =
  (Return (file_documents permit_document (fs st !! e_data_path self)
           ++ file_documents overview_document (fs st !! n_data_path self)),
   {| fs := fs st;
      log := log st ++ file_events (e_data_path self) (fs st !! e_data_path self)
                    ++ file_events (n_data_path self) (fs st !! n_data_path self) |}).
Proof.
  unfold _load_data, io_bind, io_ret. rewrite load_source_run.
  rewrite load_source_run. cbn [fs log app]. by rewrite <- app_assoc.
Qed.

(** X1. [_load_data] returns the documents of the permit file followed
    by those of the overview file. What a file contributes depends on
    that file alone: a file that is missing, unreadable or cut short by
    an exception takes nothing from the other one. The file system is
    left as it was, and the only calls are the existence test of each
    path and the opening of each file that exists. *)
Theorem load_data_documents (self : LLMModule) (st : state) :
  _load_data self st =
  (Return (file_documents permit_document (fs st !! e_data_path self)
           ++ file_documents overview_document (fs st !! n_data_path self)),
   {| fs := fs st;
      log := log st ++ file_events (e_data_path self) (fs st !! e_data_path self)
                    ++ file_events (n_data_path self) (fs st !! n_data_path self) |}).
Proof.
  unfold _load_data, io_bind, io_ret. rewrite !load_source_run.
  cbn [fs log app]. by rewrite <- app_assoc.
Qed.

Lemma slice_to_length n v s : slice_to n v = Return s → (length s ≤ n)%nat.
Proof.
  destruct v as [|t]; [done|]. intros [= <-]. rewrite length_take. lia.
Qed.

Lemma permit_document_meta m doc :
  permit_document m = Return (Some doc) →
  source doc = u "permit" ∧ (length (item_name doc) ≤ 100)%nat.
Proof.
  unfold permit_document. destruct (text_true _); [|done].
  destruct (slice_to _ _) as [s|] eqn:E; [|done].
  intros [= <-]. cbn [source item_name]. split; [done|]. by eapply slice_to_length.
Qed.

Lemma overview_document_meta m doc :
  overview_document m = Return (Some doc) →
  source doc = u "overview" ∧ (length (item_name doc) ≤ 100)%nat.
Proof.
  unfold overview_document. destruct (text_true _); [|done].
  destruct (slice_to _ _) as [s|] eqn:E; [|done].
  intros [= <-]. cbn [source item_name]. split; [done|]. by eapply slice_to_length.
Qed.

Lemma file_documents_Forall (P : Document → Prop) body entry :
  (∀ m doc, body m = Return (Some doc) → P doc) →
  Forall P (file_documents body entry).
Proof.
  intros Hbody. destruct entry as [[[l|]|]|]; cbn [file_documents]; try done.
  by apply ingest_Forall.
Qed.

(** X2. Every document that [_load_data] returns carries the tag of
    its source file, a name of at most 100 characters and a text that
    is not empty; the documents tagged ["permit"] come first. *)
Theorem load_data_metadata (self : LLMModule) (st : state) (docs : list Document)
    (st' : state) :
  _load_data self st = (Return docs, st') →
  ∃ permits overviews, docs = permits ++ overviews ∧
    Forall (λ doc, source doc = u "permit" ∧ (length (item_name doc) ≤ 100)%nat
                   ∧ text doc ≠ []) permits ∧
    Forall (λ doc, source doc = u "overview" ∧ (length (item_name doc) ≤ 100)%nat
                   ∧ text doc ≠ []) overviews.
Proof.
  rewrite load_data_run. intros [= <- _]. eexists _, _. split; [done|].
  split; apply file_documents_Forall; intros m doc Hd.
  - destruct (permit_document_meta _ _ Hd). split_and!; [done..|].
    apply (document_text_nonempty m). by left.
  - destruct (overview_document_meta _ _ Hd). split_and!; [done..|].
    apply (document_text_nonempty m). by right.
Qed.

(** The permit file of three records, the second with a null name. *)
Lemma load_data_metadata_witness :
  ∃ permits overviews, [Sample.tylenol_document] = permits ++ overviews ∧
    Forall (λ doc, source doc = u "permit" ∧ (length (item_name doc) ≤ 100)%nat
                   ∧ text doc ≠ []) permits ∧
    Forall (λ doc, source doc = u "overview" ∧ (length (item_name doc) ≤ 100)%nat
                   ∧ text doc ≠ []) overviews.
Proof.
  refine (load_data_metadata Sample.fresh_module Sample.null_name_world
            [Sample.tylenol_document]
            {| fs := fs Sample.null_name_world;
               log := [PathExists (u "e_data.json"); OpenRead (u "e_data.json");
                       PathExists (u "n_data.json")] |} _).
  vm_compute. reflexivity.
Defined.

(** An overview record that has a line, but no text under ["item_name"]
    and a null ["ITEM_NAME"], makes the metadata slice fail. *)
Lemma overview_document_null_name m :
  ¬ has_text m (u "item_name") →
  m !! u "ITEM_NAME" = Some JNull →
  _format_medicine_data m (u "overview") ≠ None →
  overview_document m = Raise TypeError.
Proof.
  intros Hlower%truthy_get_false Hupper Hfmt. unfold overview_document, or_else.
  rewrite text_true_format, bool_decide_eq_true_2 by done.
  rewrite Hlower. unfold get_or. by rewrite Hupper.
Qed.

(** X4. The overview file has the hazard of the permit file, behind its
    fallback: a record with no text under ["item_name"] (the key
    missing, null or empty) and a null ["ITEM_NAME"], while one of its
    recognized fields holds text, raises a [TypeError] when its
    metadata is built. The handler of the file catches it: the
    documents gathered so far, those of the permit file included, are
    kept, and the records after it give no document. *)
Theorem overview_null_name_skips_rest
    (m : medicine) (pre rest : list medicine) (docs docs' : list Document)
    (path : pystr) (st : state) :
  ¬ has_text m (u "item_name") →
  m !! u "ITEM_NAME" = Some JNull →
  (∃ key, key ∈ recognized_keys (u "overview") ∧ has_text m key) →
  ingest overview_document pre docs = (docs', Return tt) →
  fs st !! path = Some (File (Some (pre ++ m :: rest))) →
  overview_document m = Raise TypeError ∧
  docs `prefix_of` docs' ∧
  load_source path overview_document docs st
  = (Return docs',
     {| fs := fs st; log := log st ++ [PathExists path; OpenRead path] |}).
Proof.
  intros Hlower Hupper (key & Hkey & Htext) Hpre Hfs.
  assert (Hfmt : _format_medicine_data m (u "overview") ≠ None).
  { intros Hnone. rewrite format_none_iff_no_text_aux in Hnone.
    by apply (Hnone key). }
  assert (Hm : overview_document m = Raise TypeError)
    by by apply overview_document_null_name.
  split_and!; [done | |].
  - pose proof (ingest_prefix overview_document pre docs) as Hp. by rewrite Hpre in Hp.
  - rewrite (load_source_parsed _ _ _ _ _ Hfs), ingest_app, Hpre.
    cbn [ingest]. by rewrite Hm.
Qed.

(** An overview file of three records, the second described by its
    appearance only and with a null upper-case name: the document of
    the first record is kept, the third record gives none. *)
Lemma overview_null_name_skips_rest_witness :
  load_source (u "n_data.json") overview_document [] Cases.unnamed_world
  = (Return [Cases.named_document],
     {| fs := fs Cases.unnamed_world;
        log := [PathExists (u "n_data.json"); OpenRead (u "n_data.json")] |}).
Proof.
  refine (proj2 (proj2 (overview_null_name_skips_rest
    Cases.unnamed [Sample.both_casings] [Sample.both_casings] [] [Cases.named_document]
    (u "n_data.json") Cases.unnamed_world _ _ _ _ _))).
  - intros (v & Hv & _). vm_compute in Hv. discriminate Hv.
  - vm_compute. reflexivity.
  - exists (u "chart"). split.
    + unfold recognized_keys. rewrite overview_schema. unfold overview_fields.
      cbn [map fst snd concat app]. do 4 apply list_elem_of_further. apply list_elem_of_here.
    + exists (u "흰색의 정제").
      split; [vm_compute; reflexivity | apply literal_nonempty; vm_compute; reflexivity].
  - vm_compute. reflexivity.
  - vm_compute. reflexivity.
Defined.

Lemma name_keys_permit : name_keys (u "permit") = [u "itemName"].
Proof. unfold name_keys. by rewrite decide_True by reflexivity. Qed.

Lemma name_keys_overview : name_keys (u "overview") = [u "item_name"; u "ITEM_NAME"].
Proof. unfold name_keys. by rewrite decide_False by apply overview_ne_permit. Qed.

(** In both schemas the name is the first field, under the same label. *)
Lemma schema_starts_with_name source_type :
  ∃ fields, schema source_type = (name_keys source_type, u "의약품명") :: fields.
Proof.
  unfold schema, name_keys. destruct (decide (source_type = u "permit")); by eexists.
Qed.

(** When the name field has a line, the text begins with it. *)
Lemma format_starts_with_name m source_type t v :
  _format_medicine_data m source_type = Some t →
  first_text m (name_keys source_type) = Some v →
  (u "의약품명" ++ u ": " ++ v) `prefix_of` t.
Proof.
  rewrite format_lines. unfold expected_lines.
  destruct (schema_starts_with_name source_type) as [fields ->].
  intros Ht Hv. revert Ht.
  assert (Hl : line_of m (name_keys source_type, u "의약품명")
               = Some (u "의약품명" ++ u ": " ++ v)).
  { unfold line_of. cbn [fst snd]. by rewrite Hv. }
  cbn [omap list_omap]. rewrite Hl.
  intros Ht%(inj Some). rewrite <- Ht. cbn [join].
  destruct (omap (line_of m) fields); [done|]. by apply prefix_app_r.
Qed.

(** What the metadata slice is applied to is the name the text shows,
    or the empty string when the text shows none. *)
Lemma permit_name_value m s :
  slice_to 100 (get_or m (u "itemName") (JStr [])) = Return s →
  s = take 100 (default [] (first_text m [u "itemName"])).
Proof.
  unfold get_or. cbn [first_text].
  by destruct (m !! u "itemName") as [[|[|c t]]|]; intros [= <-].
Qed.

Lemma overview_name_value m s :
  slice_to 100 (or_else (get m (u "item_name")) (get_or m (u "ITEM_NAME") (JStr [])))
  = Return s →
  s = take 100 (default [] (first_text m [u "item_name"; u "ITEM_NAME"])).
Proof.
  unfold or_else, get, get_or. cbn [first_text].
  destruct (m !! u "item_name") as [[|[|c t]]|]; cbn [default truthy nonempty];
    destruct (m !! u "ITEM_NAME") as [[|[|c' t']]|]; cbn [default slice_to];
    by intros [= <-].
Qed.

(** X5. The name stored in the metadata of a document agrees with its
    text: it is the first 100 characters of the name under which the
    text begins (for the overview schema, the lower-case name when it
    holds text, else the upper-case one), and it is empty when the text
    shows no name. The text is the one the formatter returned. *)
Theorem document_name_matches_text (m : medicine) (doc : Document) :
  (permit_document m = Return (Some doc) →
     _format_medicine_data m (u "permit") = Some (text doc) ∧
     item_name doc = take 100 (default [] (first_text m (name_keys (u "permit")))) ∧
     ∀ v, first_text m (name_keys (u "permit")) = Some v →
          (u "의약품명" ++ u ": " ++ v) `prefix_of` text doc) ∧
  (overview_document m = Return (Some doc) →
     _format_medicine_data m (u "overview") = Some (text doc) ∧
     item_name doc = take 100 (default [] (first_text m (name_keys (u "overview")))) ∧
     ∀ v, first_text m (name_keys (u "overview")) = Some v →
          (u "의약품명" ++ u ": " ++ v) `prefix_of` text doc).
Proof.
  split.
  - unfold permit_document.
    destruct (_format_medicine_data m (u "permit")) as [t|] eqn:Ef; [|done].
    destruct (text_true (Some t)); [|done].
    destruct (slice_to _ _) as [s|] eqn:Es; [|done].
    intros [= <-]. cbn [text item_name default]. rewrite name_keys_permit.
    split_and!; [done | by apply permit_name_value |].
    intros v Hv. apply (format_starts_with_name m (u "permit")); [done|].
    by rewrite name_keys_permit.
  - unfold overview_document.
    destruct (_format_medicine_data m (u "overview")) as [t|] eqn:Ef; [|done].
    destruct (text_true (Some t)); [|done].
    destruct (slice_to _ _) as [s|] eqn:Es; [|done].
    intros [= <-]. cbn [text item_name default]. rewrite name_keys_overview.
    split_and!; [done | by apply overview_name_value |].
    intros v Hv. apply (format_starts_with_name m (u "overview")); [done|].
    by rewrite name_keys_overview.
Qed.

Lemma first_text_ext m1 m2 keys :
  (∀ key, key ∈ keys → m1 !! key = m2 !! key) →
  first_text m1 keys = first_text m2 keys.
Proof.
  induction keys as [|key keys IH]; intros H; [done|]. cbn [first_text].
  rewrite (H key) by left. rewrite IH; [done|]. intros k Hk. apply H. by right.
Qed.

Lemma omap_ext_in {A B} (f g : A → option B) (l : list A) :
  (∀ x, x ∈ l → f x = g x) → omap f l = omap g l.
Proof.
  induction l as [|x l IH]; intros H; [done|]. cbn [omap list_omap].
  rewrite (H x) by left. rewrite IH; [done|]. intros y Hy. apply H. by right.
Qed.

(** X6. The formatter reads the recognized keys of the schema and
    nothing else: two records that agree on these keys get the same
    text, whatever other keys they hold. *)
Theorem format_depends_on_recognized_keys (m1 m2 : medicine) (source_type : pystr) :
  (∀ key, key ∈ recognized_keys source_type → m1 !! key = m2 !! key) →
  _format_medicine_data m1 source_type = _format_medicine_data m2 source_type.
Proof.
  intros H. rewrite !format_lines.
  assert (E : expected_lines m1 source_type = expected_lines m2 source_type).
  { unfold expected_lines. apply omap_ext_in. intros fld Hfld. unfold line_of.
    f_equal. apply first_text_ext. intros key Hkey. apply H.
    apply elem_of_concat_map. eauto. }
  by rewrite E.
Qed.

(** The record of Tylenol with a note under a key the schema does not
    know. *)
Lemma format_depends_on_recognized_keys_witness :
  _format_medicine_data Sample.tylenol (u "permit")
  = _format_medicine_data (<[u "memo" := JStr (u "x")]> Sample.tylenol) (u "permit").
Proof.
  apply format_depends_on_recognized_keys. apply Forall_forall.
  unfold recognized_keys. rewrite permit_schema. unfold permit_fields.
  cbn [map fst snd concat app].
  repeat (apply Forall_cons; split; [vm_compute; reflexivity|]).
  by apply Forall_nil.
Defined.

(** ** Building the index when none is stored *)

Section FreshBuild.

Variable embed : list Document → option exn.
Variable persist_failure : Index → option (exn * option node).

(** The documents the two source files give in a world. *)
Local Abbreviation corpus self st :=
  (file_documents permit_document (fs st !! e_data_path self)
   ++ file_documents overview_document (fs st !! n_data_path self)).

(** The calls of [_build_index] up to the end of the ingestion. *)
Local Abbreviation ingestion self st :=
  ([PathExists index_path]
   ++ file_events (e_data_path self) (fs st !! e_data_path self)
   ++ file_events (n_data_path self) (fs st !! n_data_path self)).

Lemma build_index_absent_run self st :
  fs st !! index_path = None →
  _build_index embed persist_failure self st =
  match corpus self st with
  | [] => (Return self, {| fs := fs st; log := log st ++ ingestion self st |})
  | _ :: _ =>
      match embed (corpus self st) with
      | None =>
          match persist_failure {| indexed := corpus self st |} with
          | None =>
              (Return (finish_build
                         (set_index self (Some {| indexed := corpus self st |}))),
               {| fs := <[index_path := Dir (Some {| indexed := corpus self st |})]>
                          (fs st);
                  log := log st ++ ingestion self st
                         ++ [FromDocuments (corpus self st); Persist index_path] |})
          | Some (e, remains) =>
              (Raise e,
               {| fs := match remains with
                        | Some n => <[index_path := n]> (fs st)
                        | None => fs st
                        end;
                  log := log st ++ ingestion self st
                         ++ [FromDocuments (corpus self st); Persist index_path] |})
          end
      | Some e =>
          (Raise e,
           {| fs := fs st;
              log := log st ++ ingestion self st ++ [FromDocuments (corpus self st)] |})
      end
  end.
Proof.
  intros Hi. unfold _build_index, io_bind at 1, path_exists.
  rewrite bool_decide_eq_false_2 by (rewrite Hi; by intros [? ?]).
  unfold io_bind at 1. rewrite load_data_run. unfold record_event. cbn [fs log].
  destruct (corpus self st) as [|doc docs] eqn:Ec.
  - unfold io_ret. by rewrite <- !app_assoc.
  - unfold io_bind, from_documents, persist, io_ret, record_event. cbn [fs log].
    destruct (embed (doc :: docs)); cbn [fs log]; [by rewrite <- !app_assoc|].
    destruct (persist_failure {| indexed := doc :: docs |}) as [[e remains]|];
      cbn [fs log]; by rewrite <- !app_assoc.
Qed.

Lemma build_index_stored_run self st idx :
  fs st !! index_path = Some (Dir (Some idx)) →
  _build_index embed persist_failure self st =
  (Return (finish_build (set_index self (Some idx))),
   {| fs := fs st; log := log st ++ [PathExists index_path; LoadIndex index_path] |}).
Proof.
  intros Hs. unfold _build_index, io_bind, path_exists, load_index_from_storage, io_ret.
  rewrite bool_decide_eq_true_2 by (by rewrite Hs).
  unfold record_event. cbn [fs log]. by rewrite Hs, <- app_assoc.
Qed.

(** X7. With no index directory, source files that give a document and
    an embedding service that succeeds, [_build_index] asks the
    embedding for exactly the documents of [_load_data] and then stores
    the index, once. When the storing succeeds, the index of those
    documents is under the index path and the query engine is set on
    it. When it fails, nothing catches its exception: it leaves
    [_build_index] after the embedding was done, and the index path
    holds what the failed call left there. *)
Theorem build_index_fresh_persist (self : LLMModule) (st : state) :
  fs st !! index_path = None →
  corpus self st ≠ [] →
  embed (corpus self st) = None →
  ∃ r st',
    _build_index embed persist_failure self st = (r, st') ∧
    log st' = log st ++ ingestion self st
              ++ [FromDocuments (corpus self st); Persist index_path] ∧
    (persist_failure {| indexed := corpus self st |} = None →
       ∃ self', r = Return self' ∧
         index self' = Some {| indexed := corpus self st |} ∧
         (∃ qe, query_engine self' = Some qe ∧ retriever_index qe = index self') ∧
         fs st' = <[index_path := Dir (Some {| indexed := corpus self st |})]> (fs st)) ∧
    (∀ e remains,
       persist_failure {| indexed := corpus self st |} = Some (e, remains) →
       r = Raise e ∧ fs st' !! index_path = remains ∧
       ∀ path, path ≠ index_path → fs st' !! path = fs st !! path).
Proof.
  intros Hi Hne He. rewrite (build_index_absent_run _ _ Hi), He.
  destruct (corpus self st) as [|doc docs] eqn:Ec; [done|].
  destruct (persist_failure {| indexed := doc :: docs |}) as [[e remains]|].
  - eexists _, _. split; [reflexivity|]. cbn [fs log]. split_and!; [done|done|].
    intros e' remains' [= <- <-]. split; [done|].
    destruct remains as [n|].
    + split; [apply lookup_insert_eq|]. intros path Hp. by apply lookup_insert_ne.
    + by split.
  - eexists _, _. split; [reflexivity|]. cbn [fs log]. split_and!; [done| |done].
    intros _. eexists. split; [reflexivity|]. split_and!; [done | by eexists | done].
Qed.

(** X8. With no index directory, when the source files give no
    document, or when the embedding service fails, [_build_index]
    persists nothing: the file system is left as it was. In the first
    case the module is returned unchanged, in the second the exception
    of the service leaves [_build_index]. *)
Theorem build_index_persists_nothing (self : LLMModule) (st : state) :
  fs st !! index_path = None →
  corpus self st = [] ∨ is_Some (embed (corpus self st)) →
  ∃ r st',
    _build_index embed persist_failure self st = (r, st') ∧ fs st' = fs st ∧
    (∀ path, Persist path ∉ drop (length (log st)) (log st')) ∧
    (corpus self st = [] → r = Return self) ∧
    (∀ e, corpus self st ≠ [] → embed (corpus self st) = Some e → r = Raise e).
Proof.
  intros Hi Hcase. rewrite (build_index_absent_run _ _ Hi).
  assert (Hfe : ∀ path entry,
            Forall (λ ev, ∀ p, ev ≠ Persist p) (file_events path entry)).
  { intros path [?|]; cbn [file_events]; repeat constructor; done. }
  assert (Hing : Forall (λ ev, ∀ p, ev ≠ Persist p) (ingestion self st)).
  { rewrite !Forall_app. split_and!; [|apply Hfe..]. repeat constructor; done. }
  assert (Hno : ∀ l path, Forall (λ ev, ∀ p, ev ≠ Persist p) l → Persist path ∉ l).
  { intros l path Hl Hin. rewrite Forall_forall in Hl. by apply (Hl _ Hin path). }
  destruct (corpus self st) as [|doc docs] eqn:Ec.
  - eexists _, _. split; [reflexivity|]. cbn [fs log]. split_and!; [done| |done|done].
    intros path. rewrite drop_app_length. by apply Hno.
  - destruct Hcase as [|[e He]]; [done|]. rewrite He.
    eexists _, _. split; [reflexivity|]. cbn [fs log]. split_and!; [done| |done|].
    + intros path. rewrite drop_app_length. apply Hno.
      rewrite app_assoc. apply Forall_app. split; [done|]. repeat constructor; done.
    + by intros e' _ [= ->].
Qed.

End FreshBuild.

(** A first run on a permit file of one record, on a storage that
    fails after it has begun the directory. *)
Lemma build_index_fresh_persist_witness :
  ∃ st',
    _build_index (λ _, None) (λ _, Some (FileError, Some (Dir None)))
      Sample.fresh_module Cases.first_run_world
    = (Raise FileError, st') ∧
    fs st' !! index_path = Some (Dir None) ∧
    log st' = [PathExists index_path;
               PathExists (u "e_data.json"); OpenRead (u "e_data.json");
               PathExists (u "n_data.json");
               FromDocuments [Sample.tylenol_document]; Persist index_path].
Proof.
  assert (Hc : file_documents permit_document
                 (fs Cases.first_run_world !! e_data_path Sample.fresh_module)
               ++ file_documents overview_document
                 (fs Cases.first_run_world !! n_data_path Sample.fresh_module)
               = [Sample.tylenol_document]) by (vm_compute; reflexivity).
  destruct (build_index_fresh_persist (λ _, None)
              (λ _, Some (FileError, Some (Dir None)))
              Sample.fresh_module Cases.first_run_world)
    as (r & st' & Hrun & Hlog & _ & Hfail).
  - vm_compute. reflexivity.
  - rewrite Hc. discriminate.
  - reflexivity.
  - destruct (Hfail FileError (Some (Dir None)) eq_refl) as (-> & Hleft & _).
    exists st'. split_and!; [exact Hrun | exact Hleft |].
    rewrite Hlog, Hc. vm_compute. reflexivity.
Defined.

(** A world without source files: nothing is persisted. *)
Lemma build_index_persists_nothing_witness :
  ∃ st', _build_index (λ _, None) (λ _, None) Sample.fresh_module Sample.empty_world
         = (Return Sample.fresh_module, st') ∧
         fs st' = fs Sample.empty_world.
Proof.
  assert (Hc : file_documents permit_document
                 (fs Sample.empty_world !! e_data_path Sample.fresh_module)
               ++ file_documents overview_document
                 (fs Sample.empty_world !! n_data_path Sample.fresh_module)
               = []) by (vm_compute; reflexivity).
  destruct (build_index_persists_nothing (λ _, None) (λ _, None) Sample.fresh_module
              Sample.empty_world) as (r & st' & Hrun & Hfs & _ & Hr & _).
  - vm_compute. reflexivity.
  - left. exact Hc.
  - exists st'. rewrite (Hr Hc) in Hrun. split; [exact Hrun | exact Hfs].
Defined.

(** ** Construction of the module *)

Lemma build_index_unloadable_run embed persist_failure self st entry :
  fs st !! index_path = Some entry →
  (∀ idx, entry ≠ Dir (Some idx)) →
  _build_index embed persist_failure self st =
  (Raise StorageError,
   {| fs := fs st; log := log st ++ [PathExists index_path; LoadIndex index_path] |}).
Proof.
  intros Hs Hn. unfold _build_index, io_bind, path_exists, load_index_from_storage, io_ret.
  rewrite bool_decide_eq_true_2 by (by rewrite Hs).
  unfold record_event. cbn [fs log]. rewrite Hs, <- app_assoc.
  destruct entry as [?|[idx|]]; [done| |done]. by destruct (Hn idx).
Qed.

(** X9. A module that was constructed is consistent: the API key was
    not empty, the paths are those given, the query engine is set
    exactly when an index is, and it then retrieves from that index
    with the top 10 and the tree-summarize settings. The module has no
    index (direct completion) exactly when there was no index directory
    and the source files gave no document. *)
Theorem init_ready_consistent
    (embed : list Document → option exn)
    (persist_failure : Index → option (exn * option node))
    (api_key : option pystr)
    (e n : pystr) (st st' : state) (self : LLMModule) :
  Startup.__init__ embed persist_failure api_key e n st = (Startup.Ready self, st') →
  (∃ c key, api_key = Some (c :: key)) ∧
  e_data_path self = e ∧ n_data_path self = n ∧
  (is_Some (query_engine self) ↔ is_Some (index self)) ∧
  (∀ qe, query_engine self = Some qe →
     retriever_index qe = index self ∧ similarity_top_k qe = 10 ∧
     response_mode qe = u "tree_summarize") ∧
  (index self = None ↔
     fs st !! index_path = None ∧
     file_documents permit_document (fs st !! e)
     ++ file_documents overview_document (fs st !! n) = []).
Proof.
  unfold Startup.__init__. destruct api_key as [[|c key]|]; [done| |done].
  set (fresh := {| e_data_path := e; n_data_path := n;
                   index := None; query_engine := None |}).
  assert (Hset : ∀ idx, let self := finish_build (set_index fresh (Some idx)) in
            e_data_path self = e ∧ n_data_path self = n ∧
            (is_Some (query_engine self) ↔ is_Some (index self)) ∧
            (∀ qe, query_engine self = Some qe →
               retriever_index qe = index self ∧ similarity_top_k qe = 10 ∧
               response_mode qe = u "tree_summarize") ∧
            index self = Some idx).
  { intros idx. cbn. split_and!; [done | done | | | done].
    - split; intros _; by eexists.
    - by intros qe [= <-]. }
  destruct (fs st !! index_path) as [entry|] eqn:Hi.
  - destruct entry as [medicines|[idx|]].
    + rewrite (build_index_unloadable_run _ _ _ _ _ Hi) by done. done.
    + rewrite (build_index_stored_run _ _ _ _ _ Hi). intros [= <- _].
      destruct (Hset idx) as (? & ? & ? & ? & Hidx).
      split_and!; [by eexists _, _ | done..|]. rewrite Hidx. split; [done | by intros [? _]].
    + rewrite (build_index_unloadable_run _ _ _ _ _ Hi) by done. done.
  - rewrite (build_index_absent_run _ _ _ _ Hi). cbn [e_data_path n_data_path fresh].
    destruct (file_documents permit_document (fs st !! e)
              ++ file_documents overview_document (fs st !! n)) as [|doc docs] eqn:Ec.
    + intros [= <- _]. cbn. split_and!; [by eexists _, _ | done | done | | done | done].
      split; intros [? ?]; done.
    + destruct (embed (doc :: docs)); [done|].
      destruct (persist_failure {| indexed := doc :: docs |}) as [[e0 remains]|]; [done|].
      intros [= <- _].
      destruct (Hset {| indexed := doc :: docs |}) as (? & ? & ? & ? & Hidx).
      split_and!; [by eexists _, _ | done..|]. rewrite Hidx. split; [done | by intros [_ ?]].
Qed.

(** Construction in a world where an index was persisted. *)
Lemma init_ready_consistent_witness :
  ∃ self st',
    Startup.__init__ (λ _, None) (λ _, None) (Some (u "sk-test")) (u "e_data.json") (u "n_data.json")
      Sample.persisted_world = (Startup.Ready self, st') ∧
    (is_Some (query_engine self) ↔ is_Some (index self)).
Proof.
  eexists _, _. split; [vm_compute; reflexivity|].
  eapply (init_ready_consistent (λ _, None) (λ _, None) (Some (u "sk-test"))
            (u "e_data.json") (u "n_data.json") Sample.persisted_world).
  vm_compute. reflexivity.
Defined.

(** ** The prompt and the answer *)

Lemma substring_here (k post : pystr) : Substring k (k ++ post).
Proof. by exists [], post. Qed.

Lemma substring_app_r (k x y : pystr) : Substring k y → Substring k (x ++ y).
Proof. intros (pre & post & ->). exists (x ++ pre), post. by rewrite <- app_assoc. Qed.

(** [a] occurs in [s], and [b] after it. *)
Lemma in_order_here (a b rest : pystr) :
  Substring b rest → ∃ pre mid post, a ++ rest = pre ++ a ++ mid ++ b ++ post.
Proof. intros (mid & post & ->). by exists [], mid, post. Qed.

Lemma in_order_app_r (a b x s : pystr) :
  (∃ pre mid post, s = pre ++ a ++ mid ++ b ++ post) →
  ∃ pre mid post, x ++ s = pre ++ a ++ mid ++ b ++ post.
Proof.
  intros (pre & mid & post & ->). exists (x ++ pre), mid, post.
  by rewrite <- app_assoc.
Qed.

(** X10. The enhanced prompt carries the question unchanged, and after
    the text read from the box (unchanged too) when there is one; an
    empty string given as context is treated as no context. *)
Theorem enhance_question_verbatim (question : pystr) (ocr_context : option pystr) :
  Substring question (_enhance_question question ocr_context) ∧
  (∀ ctx, ocr_context = Some ctx → ctx ≠ [] →
     ∃ pre mid post,
       _enhance_question question ocr_context
       = pre ++ ctx ++ mid ++ question ++ post) ∧
  _enhance_question question (Some []) = _enhance_question question None.
Proof.
  split_and!.
  - rewrite enhance_question_unfold. unfold prompt_body.
    destruct ocr_context as [[|c ctx]|]; rewrite ?app_nil_l, <- !app_assoc;
      solve [repeat first [apply substring_here | apply substring_app_r]].
  - intros ctx -> Hne. rewrite enhance_question_unfold. unfold prompt_body.
    destruct ctx as [|c ctx]; [done|]. rewrite <- !app_assoc.
    repeat first [apply in_order_here | apply in_order_app_r].
    solve [repeat first [apply substring_here | apply substring_app_r]].
  - by rewrite !enhance_question_unfold.
Qed.

Section AnswerProperties.

Variable engine_query : QueryEngine → pystr → result pystr.
Variable llm_complete : pystr → result pystr.

(** X11. An answer that is not blank is returned as the service gave
    it, white space at its ends included, in both modes. *)
Theorem query_returns_answer_unchanged
    (self : LLMModule) (question : pystr) (ocr_context : option pystr)
    (answer : pystr) :
  ¬ blank answer →
  (∀ qe, query_engine self = Some qe →
     engine_query qe (_enhance_question question ocr_context) = Return answer →
     query engine_query llm_complete self question ocr_context = Return answer) ∧
  (query_engine self = None →
     llm_complete (_enhance_question question ocr_context) = Return answer →
     query engine_query llm_complete self question ocr_context = Return answer).
Proof.
  intros Hb.
  assert (Ht : negb (nonempty answer) || negb (nonempty (strip answer)) = false).
  { destruct (negb (nonempty answer) || negb (nonempty (strip answer))) eqn:E; [|done].
    by apply blank_test in E. }
  unfold query. split.
  - intros qe -> ->. cbv [try_except bind]. by rewrite Ht.
  - intros -> ->. cbv [try_except bind]. by rewrite Ht.
Qed.

End AnswerProperties.

(** An answer with white space around it passes unchanged. *)
Lemma query_returns_answer_unchanged_witness :
  query Sample.failing_engine (λ _, Return (u " 하루 세 번 복용하세요. ")) Sample.fresh_module
    (u "용법 알려줘") None
  = Return (u " 하루 세 번 복용하세요. ").
Proof.
  refine (proj2 (query_returns_answer_unchanged Sample.failing_engine
            (λ _, Return (u " 하루 세 번 복용하세요. ")) Sample.fresh_module
            (u "용법 알려줘") None (u " 하루 세 번 복용하세요. ") _) _ _).
  - apply not_blank_test. vm_compute. reflexivity.
  - reflexivity.
  - reflexivity.
Defined.

(** * Properties of the text extraction ([ocr_module.py]) *)

Import Extraction.

(** ** Strings without white space at their ends *)

Lemma lstrip_id s : (∀ c r, s = c :: r → isspace c = false) → lstrip s = s.
Proof. destruct s as [|c r]; [done|]. intros H. simpl. by rewrite (H c r). Qed.

Lemma trimmed_strip s : trimmed s → strip s = s.
Proof.
  intros (_ & Hhead & Hlast). unfold strip, rstrip. rewrite (lstrip_id s Hhead).
  rewrite lstrip_id; [apply rev_involutive|].
  intros c r Hr. apply (Hlast (rev r) c).
  rewrite <- (rev_involutive s), Hr. reflexivity.
Qed.

Lemma strip_trimmed s : strip s ≠ [] → trimmed (strip s).
Proof.
  intros Hne. destruct (strip_split s) as (l & r & _ & _ & _ & Hhead & Hlast).
  by split_and!.
Qed.

Lemma trimmed_not_blank s : trimmed s → ¬ blank s.
Proof.
  intros (Hne & Hhead & _). destruct s as [|c r]; [done|].
  apply not_blank_cons. by apply (Hhead c r).
Qed.

Lemma trimmed_app a mid b : trimmed a → trimmed b → trimmed (a ++ mid ++ b).
Proof.
  intros (Ha & Hhead & _) (Hb & _ & Hlast). split_and!.
  - destruct a; [done|]. done.
  - destruct a as [|c0 a']; [done|]. intros c r [= <- _]. by apply (Hhead c0 a').
  - destruct b as [|cl b' _] using rev_ind; [done|]. intros r c.
    rewrite !app_assoc. intros [_ <-]%app_inj_tail. by apply (Hlast b' cl).
Qed.

Lemma trimmed_join sep p ps :
  Forall trimmed (p :: ps) → trimmed (join sep (p :: ps)).
Proof.
  revert p. induction ps as [|q ps IH]; intros p Hall.
  - by apply Forall_cons in Hall as [? _].
  - apply Forall_cons in Hall as [Hp Hq]. cbn [join]. fold (join sep (q :: ps)).
    apply trimmed_app; [done | by apply IH].
Qed.

(** ** The loop over the regions *)

Section ExtractionProperties.

Context {image score poly : Type}.
Variable sv : services image score poly.

Lemma kept_region_Some rec_scores rec_polys i text (d : detail score poly) :
  kept_region sv rec_scores rec_polys i text = Some d →
  trimmed (d_text d) ∧ confident sv (d_confidence d) = true ∧
  (∃ t, text = Some t ∧ d_text d = strip t) ∧
  d_bbox d = rec_polys !! i ∧
  d_confidence d = match rec_scores !! i with Some s => Score s | None => DefaultScore end.
Proof.
  unfold kept_region. destruct text as [t|]; [|done].
  destruct (nonempty (strip t)) eqn:Hn; [|done]. cbn [andb].
  destruct (confident sv _) eqn:Hc; [|done]. intros [= <-]. cbn.
  split_and!; [|done|by exists t|done|done].
  apply strip_trimmed. by apply nonempty_true.
Qed.

Lemma kept_region_str rec_scores rec_polys i t :
  kept_region sv rec_scores rec_polys i (Some t) =
  let c := match rec_scores !! i with Some s => Score s | None => DefaultScore end in
  if nonempty (strip t) && confident sv c
  then Some {| d_text := strip t; d_confidence := c; d_bbox := rec_polys !! i |}
  else None.
Proof. reflexivity. Qed.

Lemma collect_spec rec_scores rec_polys rec_texts i extracted_texts detailed_results :
  collect sv rec_scores rec_polys rec_texts i extracted_texts detailed_results =
  let kept := omap (λ it, kept_region sv rec_scores rec_polys it.1 it.2)
                   (zip (seq i (length rec_texts)) rec_texts) in
  (extracted_texts ++ map d_text kept, detailed_results ++ kept).
Proof.
  revert i extracted_texts detailed_results.
  induction rec_texts as [|text rec_texts IH]; intros i et dr.
  - cbn. by rewrite !app_nil_r.
  - cbn [collect length seq zip zip_with omap list_omap fst snd]. cbv zeta.
    destruct text as [[|c t]|].
    + rewrite IH. reflexivity.
    + rewrite !IH. cbv zeta. rewrite (kept_region_str _ _ i (c :: t)). cbv zeta.
      destruct (nonempty (strip (c :: t)) && confident sv _); cbn [map];
        by rewrite <- ?app_assoc.
    + rewrite IH. reflexivity.
Qed.

Lemma kept_regions_trimmed rec_texts rec_scores rec_polys :
  Forall (λ d, trimmed (d_text d) ∧ confident sv (d_confidence d) = true)
         (kept_regions sv rec_texts rec_scores rec_polys).
Proof.
  apply Forall_forall. intros d (it & _ & Hd)%list_elem_of_omap.
  apply kept_region_Some in Hd as (? & ? & _). done.
Qed.

(** The run of [extract_text_from_image] on a page with texts. *)
Lemma extract_page_run files img_path content rec_texts rec_scores rec_polys :
  files !! img_path = Some content →
  predict sv content = Return (Page rec_texts rec_scores rec_polys) →
  rec_texts ≠ [] →
  extract_text_from_image sv files img_path =
  match kept_regions sv rec_texts rec_scores rec_polys with
  | [] => Nothing
  | kept => Extracted (join (u " ") (map d_text kept)) kept
  end.
Proof.
  intros Hf Hp Hne. unfold extract_text_from_image. rewrite Hf, Hp.
  destruct rec_texts as [|text rec_texts]; [done|].
  rewrite collect_spec. cbv zeta. fold (kept_regions sv (text :: rec_texts) rec_scores rec_polys).
  cbn [app]. by destruct (kept_regions sv (text :: rec_texts) rec_scores rec_polys).
Qed.

(** What holds of a text that was extracted. *)
Lemma extracted_facts files img_path text details :
  extract_text_from_image sv files img_path = Extracted text details →
  details ≠ [] ∧ text = join (u " ") (map d_text details) ∧
  Forall (λ d, trimmed (d_text d) ∧ confident sv (d_confidence d) = true) details ∧
  trimmed text.
Proof.
  unfold extract_text_from_image.
  destruct (files !! img_path) as [content|]; [|done].
  destruct (predict sv content) as [[| | |rec_texts rec_scores rec_polys]|]; try done.
  destruct rec_texts as [|t0 ts]; [done|].
  rewrite collect_spec. cbv zeta. cbn [app].
  fold (kept_regions sv (t0 :: ts) rec_scores rec_polys).
  pose proof (kept_regions_trimmed (t0 :: ts) rec_scores rec_polys) as Hk.
  destruct (kept_regions sv (t0 :: ts) rec_scores rec_polys) as [|d ds]; [done|].
  cbn [map]. intros [= <- <-]. split_and!; [done | done | done |].
  apply (trimmed_join (u " ") (d_text d) (map d_text ds)).
  change (d_text d :: map d_text ds) with (map d_text (d :: ds)).
  apply Forall_fmap. eapply Forall_impl; [exact Hk|]. by intros ? [? _].
Qed.

End ExtractionProperties.

(** ** The extraction functions *)

Lemma format_for_llm_trimmed t :
  trimmed t → OCR.format_for_llm (Some t) = Some (ocr_template t).
Proof.
  intros Ht. pose proof (trimmed_strip t Ht) as Hs. destruct Ht as (Hne & _).
  unfold OCR.format_for_llm. cbv zeta. rewrite Hs.
  apply nonempty_true in Hne. rewrite Hne. reflexivity.
Qed.

Section ExtractionTheorems.

Context {image score poly : Type}.
Variable sv : services image score poly.

(** X12. On a page with texts, [extract_text_from_image] keeps the
    regions whose text is a string that is not blank and whose
    confidence is above the cutoff (a region without score counts as
    confident), in the order of the page and with their text stripped;
    it returns their texts joined by single spaces together with their
    details, and [(None, None)] when no region is kept. *)
Theorem extract_text_keeps_confident_regions
    (files : gmap pystr image) (img_path : pystr) (content : image)
    (rec_texts : list rec_text) (rec_scores : list score) (rec_polys : list poly) :
  files !! img_path = Some content →
  predict sv content = Return (Page rec_texts rec_scores rec_polys) →
  rec_texts ≠ [] →
  extract_text_from_image sv files img_path =
  match kept_regions sv rec_texts rec_scores rec_polys with
  | [] => Nothing
  | kept => Extracted (join (u " ") (map d_text kept)) kept
  end.
Proof.
  intros Hf Hp Hne. unfold extract_text_from_image. rewrite Hf, Hp.
  destruct rec_texts as [|text rec_texts]; [done|].
  rewrite collect_spec. cbv zeta.
  fold (kept_regions sv (text :: rec_texts) rec_scores rec_polys).
  cbn [app]. by destruct (kept_regions sv (text :: rec_texts) rec_scores rec_polys).
Qed.

(** X13. A text returned by [extract_text_from_image] is the join by
    single spaces of the texts of the details returned with it; there
    is at least one detail, each has a text without white space at its
    ends and a confidence above the cutoff; so the combined text is not
    blank and has no white space at its ends. *)
Theorem extracted_text_is_trimmed
    (files : gmap pystr image) (img_path : pystr) (text : pystr)
    (details : list (detail score poly)) :
  extract_text_from_image sv files img_path = Extracted text details →
  details ≠ [] ∧ text = join (u " ") (map d_text details) ∧
  Forall (λ d, trimmed (d_text d) ∧ confident sv (d_confidence d) = true) details ∧
  trimmed text ∧ ¬ blank text ∧ strip text = text.
Proof.
  intros H. destruct (extracted_facts sv _ _ _ _ H) as (? & ? & ? & Ht).
  split_and!; [done..| by apply trimmed_not_blank | by apply trimmed_strip].
Qed.

(** X14. [extract_text_from_image] returns a bare [None] instead of a
    pair exactly when the file exists and the recognizer returns a page
    whose list of texts is empty; [extract_text_with_preprocessing] then
    fails with a [TypeError] on unpacking it, before any retry, and
    leaves the files as they were. *)
Theorem extract_empty_page_breaks_unpacking
    (files : gmap pystr image) (img_path : pystr) :
  (extract_text_from_image sv files img_path = BareNone ↔
     ∃ content rec_scores rec_polys,
       files !! img_path = Some content ∧
       predict sv content = Return (Page [] rec_scores rec_polys)) ∧
  (extract_text_from_image sv files img_path = BareNone →
     extract_text_with_preprocessing sv files img_path = (Raise TypeError, files)).
Proof.
  split.
  - unfold extract_text_from_image. split.
    + destruct (files !! img_path) as [content|]; [|done].
      destruct (predict sv content) as [[| | |rec_texts rec_scores rec_polys]|] eqn:Hp;
        try done.
      destruct rec_texts as [|t0 ts]; [by eauto 6|].
      by destruct (collect sv rec_scores rec_polys (t0 :: ts) 0 [] []) as [[|??] ?].
    + by intros (content & rec_scores & rec_polys & -> & ->).
  - intros H. unfold extract_text_with_preprocessing. by rewrite H.
Qed.

(** X15. When the first extraction gives a text,
    [extract_text_with_preprocessing] returns it with its details at
    once: its test on the text never fails, the image is not
    preprocessed, no temporary file is written and the files are left
    as they were. *)
Theorem extract_with_preprocessing_first_success
    (files : gmap pystr image) (img_path : pystr) (text : pystr)
    (details : list (detail score poly)) :
  extract_text_from_image sv files img_path = Extracted text details →
  extract_text_with_preprocessing sv files img_path
  = (Return (Found text details), files).
Proof.
  intros H. unfold extract_text_with_preprocessing. rewrite H.
  destruct (extracted_facts sv _ _ _ _ H) as (_ & _ & _ & Ht).
  rewrite (trimmed_strip _ Ht). destruct Ht as (Hne & _).
  apply nonempty_true in Hne. by rewrite Hne.
Qed.

(** A text that [extract_text_with_preprocessing] returns was extracted
    from the image or from the temporary file. *)
Lemma found_was_extracted files img_path text details files' :
  extract_text_with_preprocessing sv files img_path
  = (Return (Found text details), files') →
  ∃ files0 path0, extract_text_from_image sv files0 path0 = Extracted text details.
Proof.
  unfold extract_text_with_preprocessing, preprocess_image.
  destruct (extract_text_from_image sv files img_path) as [t d| |] eqn:E1.
  - destruct (nonempty t && nonempty (strip t)).
    + intros [= <- <- _]. eauto.
    + repeat case_match; intros ?; simplify_eq; eauto.
  - repeat case_match; intros ?; simplify_eq; eauto.
  - done.
Qed.

(** X16. A text returned by [extract_text_with_preprocessing], from the
    image or from its preprocessed copy, is never blank, and
    [format_for_llm] wraps it unchanged in its template: it never
    returns [None] on such a text. *)
Theorem found_text_formats
    (files files' : gmap pystr image) (img_path : pystr) (text : pystr)
    (details : list (detail score poly)) :
  extract_text_with_preprocessing sv files img_path
  = (Return (Found text details), files') →
  ¬ blank text ∧ OCR.format_for_llm (Some text) = Some (ocr_template text).
Proof.
  intros (files0 & path0 & H)%found_was_extracted.
  destruct (extracted_facts sv _ _ _ _ H) as (_ & _ & _ & Ht).
  split; [by apply trimmed_not_blank | by apply format_for_llm_trimmed].
Qed.

(** X17. [extract_text_with_preprocessing] touches no file but the
    temporary one; and when it returns a text after a retry, the
    temporary file is gone. *)
Theorem extract_with_preprocessing_frame
    (files files' : gmap pystr image) (img_path : pystr) (r : result (found score poly)) :
  extract_text_with_preprocessing sv files img_path = (r, files') →
  (∀ path, path ≠ temp_path → files' !! path = files !! path) ∧
  (∀ text details,
     extract_text_from_image sv files img_path = Nothing →
     r = Return (Found text details) → files' !! temp_path = None).
Proof.
  unfold extract_text_with_preprocessing, preprocess_image. intros H. split.
  - intros path Hp. revert H.
    repeat case_match; intros ?; simplify_eq;
      rewrite ?lookup_delete_ne, ?lookup_insert_ne by done; done.
  - intros text details E1 ->. revert H. rewrite E1.
    repeat case_match; intros ?; simplify_eq;
      rewrite ?lookup_delete_eq; done.
Qed.

(** X18. The retry loses its result in two cases, and leaves the
    temporary file behind in both: when the recognizer returns an empty
    list of texts for the temporary file, and when [os.remove] fails,
    even though a text had been extracted from it. *)
Theorem retry_leaves_temp_file
    (files : gmap pystr image) (img_path : pystr)
    (preprocessed content : image) :
  extract_text_from_image sv files img_path = Nothing →
  preprocess_image sv files img_path = Some preprocessed →
  imwrite sv preprocessed = Return (Some content) →
  let written := <[temp_path := content]> files in
  (extract_text_from_image sv written temp_path = BareNone ∨
   ((∃ text details, extract_text_from_image sv written temp_path
                     = Extracted text details) ∧
    is_Some (remove_error sv temp_path))) →
  extract_text_with_preprocessing sv files img_path = (Return NotFound, written).
Proof.
  intros E1 Hpre Hw written Hcase. unfold extract_text_with_preprocessing.
  rewrite E1, Hpre, Hw. fold written.
  assert (Hl : written !! temp_path = Some content) by apply lookup_insert_eq.
  destruct Hcase as [->|[(text & details & ->) [e He]]]; [done|].
  by rewrite Hl, He.
Qed.

End ExtractionTheorems.

(** The photograph of a box: five regions, two of them kept. *)
Lemma extract_text_keeps_confident_regions_witness :
  OCRCases.images !! u "box.jpg" = Some 0%nat ∧
  extract_text_from_image OCRCases.recognizer OCRCases.images (u "box.jpg")
  = Extracted (u "타이레놀 정") OCRCases.box_details.
Proof.
  assert (Hf : OCRCases.images !! u "box.jpg" = Some 0%nat) by (vm_compute; reflexivity).
  split; [exact Hf|].
  etrans.
  - apply (extract_text_keeps_confident_regions OCRCases.recognizer OCRCases.images
             (u "box.jpg") 0%nat
             [Some (u " 타이레놀 "); Some (u "500mg"); None; Some (u "  "); Some (u "정")]
             [true; false] [] Hf); [reflexivity | discriminate].
  - vm_compute. reflexivity.
Defined.

Lemma extracted_text_is_trimmed_witness :
  extract_text_from_image OCRCases.recognizer OCRCases.images (u "box.jpg")
  = Extracted (u "타이레놀 정") OCRCases.box_details ∧
  strip (u "타이레놀 정") = u "타이레놀 정".
Proof.
  assert (H : extract_text_from_image OCRCases.recognizer OCRCases.images (u "box.jpg")
              = Extracted (u "타이레놀 정") OCRCases.box_details)
    by (vm_compute; reflexivity).
  split; [exact H|].
  apply (extracted_text_is_trimmed OCRCases.recognizer _ _ _ _ H).
Defined.

Lemma extract_with_preprocessing_first_success_witness :
  extract_text_with_preprocessing OCRCases.recognizer OCRCases.images (u "box.jpg")
  = (Return (Found (u "타이레놀 정") OCRCases.box_details), OCRCases.images).
Proof.
  apply extract_with_preprocessing_first_success. vm_compute. reflexivity.
Defined.

Lemma found_text_formats_witness :
  OCR.format_for_llm (Some (u "타이레놀 정")) = Some (ocr_template (u "타이레놀 정")).
Proof.
  apply (found_text_formats OCRCases.recognizer OCRCases.images OCRCases.images
           (u "box.jpg") (u "타이레놀 정") OCRCases.box_details).
  vm_compute. reflexivity.
Defined.

(** An image too dark to read: the retry on its lightened copy gives a
    text, and the temporary file is removed. *)
Lemma extract_with_preprocessing_frame_witness :
  let run := extract_text_with_preprocessing OCRCases.recognizer OCRCases.images
               (u "dark.jpg") in
  run.2 !! temp_path = None ∧
  run.2 !! u "dark.jpg" = OCRCases.images !! u "dark.jpg".
Proof.
  intros run.
  assert (H : run = (run.1, run.2)) by apply surjective_pairing.
  destruct (extract_with_preprocessing_frame OCRCases.recognizer _ _ _ _ H)
    as [Hframe Hgone].
  split.
  - apply (Hgone (u "게보린")
             [{| d_text := u "게보린"; d_confidence := DefaultScore; d_bbox := None |}]);
      vm_compute; reflexivity.
  - apply Hframe. intros E. vm_compute in E. discriminate E.
Defined.

(** An image on which the recognizer fails, and whose filtered copy
    shows no text: the temporary file stays. *)
Lemma retry_leaves_temp_file_witness :
  extract_text_with_preprocessing OCRCases.recognizer OCRCases.images (u "noisy.jpg")
  = (Return NotFound, <[temp_path := 4%nat]> OCRCases.images).
Proof.
  apply (retry_leaves_temp_file OCRCases.recognizer OCRCases.images (u "noisy.jpg")
           4%nat 4%nat).
  - vm_compute. reflexivity.
  - vm_compute. reflexivity.
  - reflexivity.
  - left. vm_compute. reflexivity.
Defined.

(** * Properties of the voice module ([voice_module.py]) *)

Section CleanupProperties.

Import Voice.

Variable unlink_fails : pystr → bool.

Lemma remove_first (x : pystr) (pre rest : list pystr) :
  x ∉ pre → remove x (pre ++ x :: rest) = Some (pre ++ rest).
Proof.
  induction pre as [|y pre IH]; intros Hx; cbn [remove app].
  - by rewrite decide_True.
  - rewrite decide_False by (intros ->; apply Hx; left).
    rewrite IH; [done|]. intros ?. apply Hx. by right.
Qed.

(** The loop of [_cleanup_temp_files], started on a tracked list whose
    first part [pre] was visited and kept. *)
Lemma cleanup_loop_run (disk0 : gset pystr) (rest pre : list pystr) (disk : gset pystr) :
  (∀ q, q ∈ pre → q ∈ disk0 ∧ unlink_fails q) →
  disk ⊆ disk0 →
  (∀ q, unlink_fails q → q ∈ disk0 → q ∈ disk) →
  foldl (cleanup_round unlink_fails) (pre ++ rest, disk) rest
  = (pre ++ filter (λ q, q ∈ disk0 ∧ unlink_fails q) rest,
     disk ∖ list_to_set (filter (λ q, ¬ unlink_fails q) rest)).
Proof.
  revert pre disk. induction rest as [|p rest IH]; intros pre disk Hpre Hsub Hkeep.
  - cbn. by rewrite difference_empty_L.
  - cbn [foldl]. unfold cleanup_round at 2.
    assert (Hout : ¬ (p ∈ disk0 ∧ unlink_fails p) → p ∉ pre).
    { intros Hn Hin. by apply Hn, Hpre. }
    destruct (decide (p ∈ disk)) as [Hin|Hnin].
    + destruct (unlink_fails p) eqn:Hf.
      * replace (pre ++ p :: rest) with ((pre ++ [p]) ++ rest) by by rewrite <- app_assoc.
        assert (Hp : p ∈ disk0 ∧ unlink_fails p) by (rewrite Hf; split; [by apply Hsub|done]).
        rewrite IH; [| |done|done].
        -- rewrite filter_cons_True by done.
           rewrite filter_cons_False by (rewrite Hf; auto).
           by rewrite <- app_assoc.
        -- intros q [?|Hq%list_elem_of_singleton]%elem_of_app; [by auto|]. by subst q.
      * assert (Hp : ¬ (p ∈ disk0 ∧ unlink_fails p)) by (rewrite Hf; intros [_ []]).
        rewrite remove_first by (apply Hout; intros [_ []]).
        rewrite IH; [|done| |].
        -- rewrite filter_cons_False by done.
           rewrite filter_cons_True by (rewrite Hf; auto).
           f_equal. rewrite list_to_set_cons. apply set_eq. intros q.
           rewrite !elem_of_difference, elem_of_union, elem_of_singleton. tauto.
        -- intros q [Hq _]%elem_of_difference. by apply Hsub.
        -- intros q Hq ?. apply elem_of_difference. split; [by auto|].
           intros ->%elem_of_singleton. by rewrite Hf in Hq.
    + assert (Hno : ¬ (p ∈ disk0 ∧ unlink_fails p)) by (intros [? ?]; by apply Hnin, Hkeep).
      rewrite remove_first by by apply Hout.
      rewrite IH by done.
      rewrite filter_cons_False by done.
      f_equal. destruct (unlink_fails p) eqn:Hf.
      * rewrite filter_cons_False by (rewrite Hf; auto). done.
      * rewrite filter_cons_True by (rewrite Hf; auto).
        rewrite list_to_set_cons. apply set_eq. intros q.
        rewrite !elem_of_difference, elem_of_union, elem_of_singleton.
        split; [|tauto]. intros [? ?]. split; [done|]. intros [->|?]; tauto.
Qed.

(** X19. [_cleanup_temp_files] leaves tracked exactly the paths that
    exist and could not be deleted, in their order; every other tracked
    path is forgotten, and deleted when it existed. No other path is
    touched, and [remove] never fails in the loop. *)
Theorem cleanup_keeps_undeletable (temp_files : list pystr) (disk : gset pystr) :
  let after := _cleanup_temp_files unlink_fails temp_files disk in
  after.1 = filter (λ q, q ∈ disk ∧ unlink_fails q) temp_files ∧
  (∀ q, q ∈ after.2 ↔ q ∈ disk ∧ (q ∈ temp_files → unlink_fails q)) ∧
  (∀ q, q ∈ after.1 → q ∈ after.2).
Proof.
  cbv zeta. unfold _cleanup_temp_files.
  pose proof (cleanup_loop_run disk temp_files [] disk) as Hrun. cbn [app] in Hrun.
  rewrite Hrun; [|by intros q ?%elem_of_nil|done|done].
  cbn [fst snd app].
  assert (Hd : ∀ q, q ∈ disk ∖ list_to_set (filter (λ q, ¬ unlink_fails q) temp_files)
                   ↔ q ∈ disk ∧ (q ∈ temp_files → unlink_fails q)).
  { intros q. rewrite elem_of_difference, elem_of_list_to_set, list_elem_of_filter.
    unfold Is_true. destruct (unlink_fails q); tauto. }
  split_and!; [done | exact Hd |].
  intros q [[? ?] ?]%list_elem_of_filter. apply Hd. auto.
Qed.

Variable transcribe : pystr → result (list pystr).

(** X20. [_speech_to_text] returns a text only for a file that exists
    and that the recognizer transcribes without error into segments
    that are not all blank; the text is the concatenation of the
    segments without the white space at its ends, so it is never empty
    nor padded. In every other case the result is [None]. *)
Theorem speech_to_text_result (disk : gset pystr) (audio_file_path text : pystr) :
  _speech_to_text transcribe disk audio_file_path = Some text ↔
  audio_file_path ∈ disk ∧
  ∃ segments, transcribe audio_file_path = Return segments ∧
              ¬ blank (concat segments) ∧ text = strip (concat segments) ∧
              trimmed text.
Proof.
  assert (Hc : ∀ (segments : list pystr) acc,
             foldl (λ acc text, acc ++ text) acc segments = acc ++ concat segments).
  { induction segments as [|s segments IH]; intros acc; cbn.
    - by rewrite app_nil_r.
    - by rewrite IH, app_assoc. }
  unfold _speech_to_text. split.
  - destruct (decide (audio_file_path ∈ disk)) as [Hin|]; [|done].
    destruct (transcribe audio_file_path) as [segments|]; [|done].
    cbv zeta. rewrite Hc. cbn [app].
    destruct (nonempty (strip (concat segments))) eqn:Hn; [|done].
    intros [= <-]. apply nonempty_true in Hn.
    split; [done|]. exists segments. split_and!; [done| |done|by apply strip_trimmed].
    by rewrite <- strip_nil.
  - intros (Hin & segments & -> & Hb & -> & _).
    rewrite decide_True by done. cbv zeta. rewrite Hc. cbn [app].
    rewrite <- strip_nil in Hb. apply nonempty_true in Hb. by rewrite Hb.
Qed.

End CleanupProperties.

(** * Properties of the assistant ([main.py]) *)

Section SessionProperties.

Import Assistant.

Context {image score poly : Type}.
Variable sv : services image score poly.
Variable engine_query : QueryEngine → pystr → result pystr.
Variable llm_complete : pystr → result pystr.
Variable upper : pystr → pystr.

Local Abbreviation query := (LLM.query engine_query llm_complete).
Local Abbreviation handle_medicine_query :=
  (Assistant.handle_medicine_query sv engine_query llm_complete upper).

(** [query] returns a text, and not a blank one. *)
Lemma query_returns_text (self : LLMModule) question ocr_context :
  ∃ answer, query self question ocr_context = Return answer ∧ ¬ blank answer.
Proof.
  unfold LLM.query.
  destruct (match query_engine self with Some _ => _ | None => _ end) as [a|e];
    cbv [try_except bind].
  - destruct (negb (nonempty a) || negb (nonempty (strip a))) eqn:Ht.
    + eexists. split; [reflexivity|]. apply fallback_not_blank.
    + eexists. split; [reflexivity|]. rewrite <- blank_test. congruence.
  - eexists. split; [reflexivity|]. apply apology_not_blank.
Qed.

Lemma bare_none_file files img_path :
  extract_text_from_image sv files img_path = BareNone → is_Some (files !! img_path).
Proof.
  unfold extract_text_from_image. destruct (files !! img_path); [eauto|done].
Qed.

(** A text is found only in a file that exists. *)
Lemma found_file_exists files img_path text details files' :
  extract_text_with_preprocessing sv files img_path
  = (Return (Found text details), files') →
  is_Some (files !! img_path).
Proof.
  destruct (files !! img_path) as [content|] eqn:Hf; [eauto|].
  unfold extract_text_with_preprocessing, preprocess_image, extract_text_from_image.
  by rewrite Hf.
Qed.

(** The first half of a round in which a text is found on the box. *)
Lemma read_box_found self typed w text details fs :
  upper (strip typed) = u "S" →
  extract_text_with_preprocessing sv (files w) image_path
  = (Return (Found text details), fs) →
  read_box sv upper self typed w
  = (Return (), set_ocr_context self (Some (ocr_template text)), set_files w fs).
Proof.
  intros HS Hx. unfold read_box. cbv zeta. rewrite HS, decide_True by done.
  destruct (found_file_exists _ _ _ _ _ Hx) as [content ->]. rewrite Hx.
  destruct (found_was_extracted sv _ _ _ _ _ Hx) as (files0 & path0 & H).
  destruct (extracted_facts sv _ _ _ _ H) as (_ & _ & _ & Ht).
  rewrite (format_for_llm_trimmed _ Ht). destruct Ht as (Hne & _).
  apply nonempty_true in Hne. by rewrite Hne.
Qed.

(** X21. When the user typed S and the recognizer returns a page
    without texts for the box image, nothing in [handle_medicine_query]
    catches the [TypeError] of the unpacking: the method ends after its
    first prompt, whatever was heard. The question is not put to
    [query], and the stored OCR context is neither replaced nor
    reset. *)
Theorem handle_query_empty_page_aborts
    (self : MedicineAssistant) (typed : pystr) (heard : option pystr)
    (w : world image) :
  upper (strip typed) = u "S" →
  extract_text_from_image sv (files w) image_path = BareNone →
  handle_medicine_query self typed heard w
  = (Raise TypeError, self, speak ocr_prompt w).
Proof.
  intros HS Hb. unfold Assistant.handle_medicine_query, read_box. cbv zeta.
  rewrite HS, decide_True by done. cbn [files speak].
  destruct (bare_none_file _ _ Hb) as [content ->].
  unfold extract_text_with_preprocessing. rewrite Hb.
  unfold set_files. cbn [files spoken]. by destruct w.
Qed.

(** X22. When the user typed S and a text is read from the box, from
    the image or from its preprocessed copy, the question that was
    heard is put to [query] with that text wrapped in the template of
    [format_for_llm] as its context. The user hears the two prompts and
    then the answer, which is never blank; the stored context is reset
    to [None]. *)
Theorem handle_query_asks_with_box_text
    (self : MedicineAssistant) (typed question : pystr) (w : world image)
    (text : pystr) (details : list (detail score poly)) (fs : gmap pystr image) :
  upper (strip typed) = u "S" →
  extract_text_with_preprocessing sv (files w) image_path
  = (Return (Found text details), fs) →
  question ≠ [] →
  ∃ answer,
    query (llm self) question (Some (ocr_template text)) = Return answer ∧
    ¬ blank answer ∧
    handle_medicine_query self typed (Some question) w
    = (Return (), set_ocr_context self None,
       {| files := fs;
          spoken := spoken w ++ [ocr_prompt; question_prompt; answer] |}).
Proof.
  intros HS Hx Hq.
  destruct (query_returns_text (llm self) question (Some (ocr_template text)))
    as (answer & Ha & Hb).
  exists answer. split_and!; [done|done|].
  unfold Assistant.handle_medicine_query. cbv zeta.
  rewrite (read_box_found self typed (speak ocr_prompt w) text details fs HS Hx).
  destruct question as [|c q]; [done|].
  cbn [llm ocr_context set_ocr_context]. rewrite Ha.
  unfold speak, set_files, set_ocr_context. cbn [files spoken llm].
  by rewrite <- !app_assoc.
Qed.

(** X23. The stored context outlives a round without question. When a
    text was read from the box but no question was recognised, the
    method returns early and keeps the context; if in the next round
    the user types something else than S, the question of that round is
    put to [query] with the text of the earlier box. *)
Theorem handle_query_context_survives_silence
    (self : MedicineAssistant) (typed1 typed2 question : pystr)
    (heard1 : option pystr) (w : world image)
    (text : pystr) (details : list (detail score poly)) (fs : gmap pystr image) :
  upper (strip typed1) = u "S" →
  extract_text_with_preprocessing sv (files w) image_path
  = (Return (Found text details), fs) →
  heard1 = None ∨ heard1 = Some [] →
  upper (strip typed2) ≠ u "S" →
  question ≠ [] →
  let first := handle_medicine_query self typed1 heard1 w in
  first.1.1 = Return () ∧
  ocr_context first.1.2 = Some (ocr_template text) ∧
  ∃ answer,
    query (llm self) question (Some (ocr_template text)) = Return answer ∧
    handle_medicine_query first.1.2 typed2 (Some question) first.2
    = (Return (), set_ocr_context self None,
       {| files := fs;
          spoken := spoken w ++ [ocr_prompt; question_prompt; no_input_msg;
                                 ocr_prompt; question_prompt; answer] |}).
Proof.
  intros HS Hx Hh HS2 Hq. cbv zeta.
  destruct (query_returns_text (llm self) question (Some (ocr_template text)))
    as (answer & Ha & Hb).
  assert (Hfirst : handle_medicine_query self typed1 heard1 w
                   = (Return (), set_ocr_context self (Some (ocr_template text)),
                      speak no_input_msg (speak question_prompt
                        (set_files (speak ocr_prompt w) fs)))).
  { unfold Assistant.handle_medicine_query. cbv zeta.
    rewrite (read_box_found self typed1 (speak ocr_prompt w) text details fs HS Hx).
    by destruct Hh as [-> | ->]. }
  rewrite Hfirst. cbn [fst snd]. split_and!; [done|done|].
  exists answer. split; [done|].
  unfold Assistant.handle_medicine_query, read_box. cbv zeta.
  rewrite decide_False by done.
  destruct question as [|c q]; [done|].
  cbn [llm ocr_context set_ocr_context]. rewrite Ha.
  unfold speak, set_files, set_ocr_context. cbn [files spoken llm].
  by rewrite <- !app_assoc.
Qed.

End SessionProperties.

(** The box is read and the question is asked about it. *)
Lemma handle_query_asks_with_box_text_witness :
  ∃ answer,
    Substring (u "타이레놀 정") answer ∧
    Desk.handle Desk.assistant (u " s ") (Some (u "용법 알려줘")) Desk.table
    = (Return (), Desk.assistant,
       {| Assistant.files := Assistant.files Desk.table;
          Assistant.spoken := [Assistant.ocr_prompt; Assistant.question_prompt; answer] |}).
Proof.
  destruct (handle_query_asks_with_box_text OCRCases.recognizer Sample.failing_engine
              Desk.echo Spec.ascii_upper Desk.assistant (u " s ") (u "용법 알려줘")
              Desk.table (u "타이레놀 정") OCRCases.box_details
              (Assistant.files Desk.table))
    as (answer & Ha & _ & Hrun).
  - vm_compute. reflexivity.
  - vm_compute. reflexivity.
  - vm_compute. discriminate.
  - exists answer. split; [|exact Hrun].
    vm_compute in Ha. injection Ha as <-.
    apply contains_spec. vm_compute. reflexivity.
Defined.

(** A box is read, nothing is heard; in the next round the user types
    Q and asks. *)
Lemma handle_query_context_survives_silence_witness :
  let first := Desk.handle Desk.assistant (u "S") None Desk.table in
  ∃ answer,
    Substring (u "타이레놀 정") answer ∧
    (Desk.handle first.1.2 (u "q") (Some (u "부작용은?")) first.2).2
    = {| Assistant.files := Assistant.files Desk.table;
         Assistant.spoken :=
           [Assistant.ocr_prompt; Assistant.question_prompt; Assistant.no_input_msg;
            Assistant.ocr_prompt; Assistant.question_prompt; answer] |}.
Proof.
  destruct (handle_query_context_survives_silence OCRCases.recognizer
              Sample.failing_engine Desk.echo Spec.ascii_upper Desk.assistant
              (u "S") (u "q") (u "부작용은?") None Desk.table
              (u "타이레놀 정") OCRCases.box_details (Assistant.files Desk.table))
    as (_ & _ & answer & Ha & Hrun).
  - vm_compute. reflexivity.
  - vm_compute. reflexivity.
  - by left.
  - vm_compute. discriminate.
  - vm_compute. discriminate.
  - intros first. exists answer. split.
    + vm_compute in Ha. injection Ha as <-.
      apply contains_spec. vm_compute. reflexivity.
    + subst first. unfold Desk.handle. rewrite Hrun. reflexivity.
Defined.

(** A photograph on which nothing is read: the round ends at once, and
    the box remembered from before stays. *)
Lemma handle_query_empty_page_aborts_witness :
  Desk.handle Desk.reminded (u "s") (Some (u "부작용은?")) Desk.bare_table
  = (Raise TypeError, Desk.reminded,
     {| Assistant.files := Assistant.files Desk.bare_table;
        Assistant.spoken := [Assistant.ocr_prompt] |}).
Proof.
  apply (handle_query_empty_page_aborts OCRCases.recognizer Sample.failing_engine
           Desk.echo Spec.ascii_upper Desk.reminded (u "s") (Some (u "부작용은?"))
           Desk.bare_table).
  - vm_compute. reflexivity.
  - vm_compute. reflexivity.
Defined.
